(** * Zedux: a shallow embedding of the React bindings and of the atom engine

    The development follows the repository's files:
    - [Utils]     : [packages/react/src/store/actions.ts] (edge flags,
                    [detailedTypeof], [isPlainObject]);
    - [Types]     : the [ActiveState], [AsyncStatus] and [StateType] enums;
    - [LogView]   : the filter of the devtools [Log] component;
    - [UseAtom]   : the [useAtom] hook;
    - [Engine]    : the Ecosystem, Graph and instance lifecycle;
    - [Hooks]     : [useAtomInstance] and [useAtomInstanceDynamic].

    Definitions come first, the theorems about them follow. *)

From Stdlib Require Import ZArith NArith Ascii String List Bool Lia.
From stdpp Require Import base option list pretty strings gmap fin_maps.

#[local] Set Warnings "-register-all".

Open Scope string_scope.

(** ** Completion records: a JavaScript call returns or throws. *)

Inductive Completion (E A : Type) : Type :=
| Normal (a : A)
| Throw (e : E).
Arguments Normal {E A} a.
Arguments Throw {E A} e.

Definition bindC {E A B} (c : Completion E A) (k : A -> Completion E B)
  : Completion E B :=
  match c with
  | Normal a => k a
  | Throw e => Throw e
  end.

Notation "'let!' x ':=' c 'in' k" := (bindC c (fun x => k))
  (at level 10, x pattern, c at level 100, k at level 200, only parsing).

(** ** [store/actions.ts] *)

Module Utils.

(** Edge flags, "copied from packages/atoms/src/utils/general.ts". *)
Definition Explicit : Z := 1.
Definition External : Z := 2.
Definition Static : Z := 4.


(** An object is known to these functions through three things only:
    whether it is callable (then [typeof] is "function"), whether it is an
    exotic array ([Array.isArray]) and its prototype chain. A prototype
    chain is finite and acyclic, so an object carries its chain. *)
Inductive JsObject : Type :=
| MkObject (callable : bool) (exoticArray : bool) (proto : option JsObject).

Definition callable (o : JsObject) : bool :=
  match o with MkObject c _ _ => c end.
Definition exoticArray (o : JsObject) : bool :=
  match o with MkObject _ a _ => a end.
Definition proto (o : JsObject) : option JsObject :=
  match o with MkObject _ _ p => p end.

Inductive JsValue : Type :=
| JUndefined
| JNull
| JBoolean (b : bool)
| JNumber (n : Z)
| JNaN
| JBigInt (n : Z)
| JString (s : string)
| JSymbol (description : string)
| JObj (o : JsObject).

(** The intrinsic prototypes. [Array.prototype] is itself an array. *)
Definition ObjectPrototype : JsObject := MkObject false false None.
Definition FunctionPrototype : JsObject :=
  MkObject true false (Some ObjectPrototype).



(** [!!v] *)
Definition ToBoolean (v : JsValue) : bool :=
  match v with
  | JUndefined | JNull | JNaN => false
  | JBoolean b => b
  | JNumber n | JBigInt n => negb (n =? 0)%Z
  | JString s => negb (String.eqb s "")
  | JSymbol _ | JObj _ => true
  end.









End Utils.

(** ** The enums of the types file *)

Module Types.

Inductive ActiveState : Type :=
| Active
| Destroyed
| Destroying
| Initializing.



Definition ActiveState_eqb (a b : ActiveState) : bool :=
  match a, b with
  | Active, Active | Destroyed, Destroyed
  | Destroying, Destroying | Initializing, Initializing => true
  | _, _ => false
  end.

Inductive AsyncStatus : Type :=
| Error
| Idle
| Loading
| Success.

(** A numeric enum: members count from 0. *)
Inductive StateType : Type :=
| Store
| Value.

Definition StateType_value (s : StateType) : Z :=
  match s with
  | Store => 0
  | Value => 1
  end.


End Types.

(** ** [devtools/StateHub/components/Log/index.tsx] *)

Module LogView.

Record AtomBase := {
  key : string;
  flags : option (list string);
}.

Record AnyAtomInstanceBase := {
  _activeState : Types.ActiveState;
  atom : AtomBase;
  keyHash : string;
}.

(** The flags of a [DependentEdge] are optional booleans. *)
Record DependentEdge := {
  isExplicit : option bool;
  isExternal : option bool;
  isStatic : option bool;
}.

(** [dependent] is an instance, or the name of an external dependent. *)
Inductive Dependent : Type :=
| DependentName (name : string)
| DependentInstance (instance : AnyAtomInstanceBase).

Record GhostEdge := {
  ghost_edge : DependentEdge;
  ghost_dependency : AnyAtomInstanceBase;
}.

(** The actions the log holds, by [type]; [OtherAction] stands for every
    type the switch of the filter sends to [default]. *)
Inductive Action : Type :=
| EdgeCreated (dependency : AnyAtomInstanceBase) (dependent : Dependent)
    (edge : DependentEdge)
| EdgeRemoved (dependency : AnyAtomInstanceBase) (dependent : Dependent)
    (edge : DependentEdge)
| GhostEdgeCreated (ghost : GhostEdge)
| GhostEdgeDestroyed (ghost : GhostEdge)
| InstanceActiveStateChanged (instance : AnyAtomInstanceBase)
| InstanceStateChanged (instance : AnyAtomInstanceBase)
| OtherAction (type : string).

Definition action_type (a : Action) : string :=
  match a with
  | EdgeCreated _ _ _ => "edgeCreated"
  | EdgeRemoved _ _ _ => "edgeRemoved"
  | GhostEdgeCreated _ => "ghostEdgeCreated"
  | GhostEdgeDestroyed _ => "ghostEdgeDestroyed"
  | InstanceActiveStateChanged _ => "instanceActiveStateChanged"
  | InstanceStateChanged _ => "instanceStateChanged"
  | OtherAction type => type
  end.

Record LogEvent := {
  id : Z;
  action : Action;
}.

Record EdgeTypeFilter := {
  filter_isExplicit : option bool;
  filter_isExternal : option bool;
  filter_isStatic : option bool;
}.

(** What the selectors of the component return; a list may be
    [undefined]. *)
Record Filters := {
  atomFilter : option (list string);
  atomFlagsFilter : option (list string);
  atomInstanceFilter : option (list string);
  atomInstanceActiveStateFilter : option (list Types.ActiveState);
  atomInstanceKeyHashFilter : option (list string);
  edgeTypeFilter : EdgeTypeFilter;
  eventTypeFilter : option (list string);
}.

(** [!xs?.length] *)
Definition noLength {A} (xs : option (list A)) : bool :=
  match xs with
  | None => true
  | Some l => (length l =? 0)%nat
  end.

(** [xs?.includes(x)], read as a condition ([undefined] is falsy). *)
Definition includes (xs : option (list string)) (x : string) : bool :=
  match xs with
  | None => false
  | Some l => existsb (String.eqb x) l
  end.

(** [xs?.some(p)], read as a condition. *)
Definition some {A} (xs : option (list A)) (p : A -> bool) : bool :=
  match xs with
  | None => false
  | Some l => existsb p l
  end.

(** [String.prototype.toLowerCase] on the ASCII letters. *)
Definition lowerAscii (c : ascii) : ascii :=
  let n := nat_of_ascii c in
  if ((65 <=? n) && (n <=? 90))%nat then ascii_of_nat (n + 32) else c.

Fixpoint toLowerCase (s : string) : string :=
  match s with
  | EmptyString => EmptyString
  | String c r => String (lowerAscii c) (toLowerCase r)
  end.

(** [s.includes(sub)] *)
Fixpoint stringIncludes (s sub : string) : bool :=
  String.prefix sub s ||
  match s with
  | EmptyString => false
  | String _ r => stringIncludes r sub
  end.

(** [Object.values(edgeTypeFilter).filter(val => typeof val !==
    'undefined')] *)
Definition definedEdgeTypes (f : EdgeTypeFilter) : list bool :=
  omap (fun v : option bool => v)
    [filter_isExplicit f; filter_isExternal f; filter_isStatic f].

Definition noFiltersSelected (f : Filters) : bool :=
  noLength (atomFilter f) &&
  noLength (atomFlagsFilter f) &&
  noLength (atomInstanceActiveStateFilter f) &&
  noLength (atomInstanceFilter f) &&
  noLength (atomInstanceKeyHashFilter f) &&
  (length (definedEdgeTypes (edgeTypeFilter f)) =? 0)%nat &&
  noLength (eventTypeFilter f).

(** [typeof wanted !== 'undefined' && actual !== wanted] *)
Definition flagMismatch (wanted actual : option bool) : bool :=
  match wanted with
  | None => false
  | Some w =>
      match actual with
      | Some a => negb (Bool.eqb a w)
      | None => true
      end
  end.

Definition edgePasses (f : Filters) (edge : DependentEdge) : bool :=
  let t := edgeTypeFilter f in
  if flagMismatch (filter_isExplicit t) (isExplicit edge) then false
  else if flagMismatch (filter_isExternal t) (isExternal edge) then false
  else if flagMismatch (filter_isStatic t) (isStatic edge) then false
  else true.

Definition instancePasses (f : Filters) (instance : AnyAtomInstanceBase)
  : bool :=
  let passesActiveStateFilter :=
    noLength (atomInstanceActiveStateFilter f) ||
    some (atomInstanceActiveStateFilter f)
      (Types.ActiveState_eqb (_activeState instance)) in
  if noLength (atomFilter f) &&
     noLength (atomFlagsFilter f) &&
     noLength (atomInstanceFilter f) &&
     noLength (atomInstanceKeyHashFilter f)
  then passesActiveStateFilter
  else
    (includes (atomFilter f) (key (atom instance)) ||
     some (atomFlagsFilter f)
       (fun flag => includes (flags (atom instance)) flag) ||
     includes (atomInstanceFilter f) (keyHash instance) ||
     some (atomInstanceKeyHashFilter f)
       (fun partialKeyHash =>
          stringIncludes (toLowerCase (keyHash instance))
            (toLowerCase partialKeyHash))) &&
    passesActiveStateFilter.

(** The callback of [log.filter]. *)
Definition eventPasses (f : Filters) (event : LogEvent) : bool :=
  if negb (noLength (eventTypeFilter f)) &&
     negb (includes (eventTypeFilter f) (action_type (action event)))
  then false
  else
    match action event with
    | EdgeCreated dependency dependent edge
    | EdgeRemoved dependency dependent edge =>
        edgePasses f edge &&
        (instancePasses f dependency ||
         match dependent with
         | DependentName _ => false
         | DependentInstance d => instancePasses f d
         end)
    | GhostEdgeCreated ghost
    | GhostEdgeDestroyed ghost =>
        edgePasses f (ghost_edge ghost) &&
        instancePasses f (ghost_dependency ghost)
    | InstanceActiveStateChanged instance
    | InstanceStateChanged instance => instancePasses f instance
    | OtherAction _ => false
    end.

(** The body of the [useMemo] that computes [filteredLog]. *)
Definition filteredLog (f : Filters) (log : list LogEvent)
  : list LogEvent :=
  if noFiltersSelected f then log else List.filter (eventPasses f) log.

(** The action types the switch names. *)
Definition handledTypes : list string :=
  ["edgeCreated"; "edgeRemoved"; "ghostEdgeCreated"; "ghostEdgeDestroyed";
   "instanceActiveStateChanged"; "instanceStateChanged"].

End LogView.

(** ** The [useAtom] hook *)

Module UseAtom.

(** What a caller can pass: [paramA] is typed as a key, a [[key,
    ...params]] array or a config object, and may be anything at run
    time. *)
Inductive Arg : Type :=
| AUndefined
| ANull
| ABoolean (b : bool)
| ANumber (n : Z)
| ANaN
| AString (s : string)
| AArray (items : list Arg)
| AObject (fields : list (string * Arg))
| AFunction (name : string).

(** [!!a]: arrays, objects and functions are truthy. *)
Definition ToBoolean (a : Arg) : bool :=
  match a with
  | AUndefined | ANull | ANaN => false
  | ABoolean b => b
  | ANumber n => negb (n =? 0)%Z
  | AString s => negb (String.eqb s "")
  | AArray _ | AObject _ | AFunction _ => true
  end.

Definition isArray (a : Arg) : bool :=
  match a with
  | AArray _ => true
  | _ => false
  end.

(** [typeof a === 'object'] *)
Definition typeofIsObject (a : Arg) : bool :=
  match a with
  | ANull | AArray _ | AObject _ => true
  | _ => false
  end.

(** [o.name]: [undefined] when the property is missing. *)
Fixpoint getField (fields : list (string * Arg)) (name : string) : Arg :=
  match fields with
  | [] => AUndefined
  | (k, v) :: rest => if String.eqb k name then v else getField rest name
  end.

Definition prop (o : Arg) (name : string) : Arg :=
  match o with
  | AObject fields => getField fields name
  | _ => AUndefined
  end.

(** [a[0]] and [a.slice(1)] on an array. *)
Definition first (items : list Arg) : Arg :=
  match items with
  | [] => AUndefined
  | x :: _ => x
  end.

Definition slice1 (items : list Arg) : list Arg :=
  match items with
  | [] => []
  | _ :: rest => rest
  end.

Inductive JsError : Type :=
| TypeError (message : string).

(** The object literal assigned to [newAtom]. [getReactContext] is a
    closure over a local variable and is not run by the hook. *)
Record AtomBaseProperties := {
  internalId : string;
  flags : Arg;
  key : Arg;
  readonly : Arg;
  scope : Arg;
  value : Arg;
}.

(** What one call site of the hook keeps between renders and what it has
    done to the helpers it imports. *)
Record World := {
  memo : option AtomBaseProperties;
  idsGenerated : nat;
  createAtomCalls : list (AtomBaseProperties * Arg);
}.

(** The value the hook returns: the call
    [useAtomWithSubscription(newAtom, params)], whose body is not part of
    these sources. [params] is [undefined] unless [paramA] is an array. *)
Record SubscriptionCall := {
  call_atom : AtomBaseProperties;
  call_params : option (list Arg);
}.

Section Hook.

(** [Scope.App] and [generateImplementationId] are imported; the second
    is given the number of ids generated so far. *)
Variable Scope_App : Arg.
Variable generateImplementationId : nat -> string.

(** The callback of [useMemo]. *)
Definition makeAtom (w : World) (paramA maybeFactory : Arg)
  : Completion JsError AtomBaseProperties * World :=
  if negb (ToBoolean paramA)
  then (Throw (TypeError "Zedux - All atoms must have a key"), w)
  else
    let options :=
      if typeofIsObject paramA && negb (isArray paramA) then paramA
      else
        AObject
          [("value", maybeFactory);
           ("key",
            match paramA with
            | AArray items => first items
            | _ => paramA
            end)] in
    let newAtom := {|
      internalId := generateImplementationId (idsGenerated w);
      flags := prop options "flags";
      key := prop options "key";
      readonly := prop options "readonly";
      scope :=
        match prop options "scope" with
        | AUndefined => Scope_App
        | s => s
        end;
      value := prop options "value";
    |} in
    (Normal newAtom,
     {| memo := memo w;
        idsGenerated := S (idsGenerated w);
        createAtomCalls := createAtomCalls w ++ [(newAtom, options)] |}).

(** [useMemo(callback, [])]: the callback runs when the call site has
    no memoised value yet; afterwards React returns the memoised one. *)
Definition useMemo0 (w : World)
    (callback : World -> Completion JsError AtomBaseProperties * World)
  : Completion JsError AtomBaseProperties * World :=
  match memo w with
  | Some cached => (Normal cached, w)
  | None =>
      match callback w with
      | (Normal a, w') =>
          (Normal a,
           {| memo := Some a;
              idsGenerated := idsGenerated w';
              createAtomCalls := createAtomCalls w' |})
      | (Throw e, w') => (Throw e, w')
      end
  end.

Definition useAtom (w : World) (paramA maybeFactory : Arg)
  : Completion JsError SubscriptionCall * World :=
  let params :=
    match paramA with
    | AArray items => Some (slice1 items)
    | _ => None
    end in
  match useMemo0 w (fun w0 => makeAtom w0 paramA maybeFactory) with
  | (Normal newAtom, w') =>
      (Normal {| call_atom := newAtom; call_params := params |}, w')
  | (Throw e, w') => (Throw e, w')
  end.

End Hook.

(** A call site on its first render. *)
Definition mount : World :=
  {| memo := None; idsGenerated := 0; createAtomCalls := [] |}.

End UseAtom.


(** ** The Ecosystem, the Graph and the instance lifecycle *)

(** Modelled from the spec: the classes behind [ecosystem.getNode],
    [node.u], [node.k] and [ecosystem._graph] are not among the sources; the
    whole of the module [Engine] is written from the specification of the
    engine (its sections 3 to 5). *)

Module Engine.

(** *** Values *)

(** States, params, promises and errors. An array or an object (a "plain
    data container") has a reference and its contents; a function, a class
    instance or a host object ("opaque value") has its reference only. *)
Inductive JsVal : Type :=
| VUndefined
| VNull
| VBool (b : bool)
| VNum (n : Z)
| VStr (s : string)
| VArr (ref : nat) (items : list JsVal)
| VObj (ref : nat) (fields : list (string * JsVal))
| VOpaque (ref : nat).



(** [a === b] *)
Definition strictEq (a b : JsVal) : bool :=
  match a, b with
  | VUndefined, VUndefined => true
  | VNull, VNull => true
  | VBool x, VBool y => Bool.eqb x y
  | VNum x, VNum y => (x =? y)%Z
  | VStr x, VStr y => String.eqb x y
  | VArr r _, VArr r' _ => (r =? r')%nat
  | VObj r _, VObj r' _ => (r =? r')%nat
  | VOpaque r, VOpaque r' => (r =? r')%nat
  | _, _ => false
  end.

Definition quote : string := String (ascii_of_nat 34) EmptyString.

(** Modelled from the spec: the hash of params, "deep structural hash for
    plain data containers; identity hash for opaque values" (the hashing
    function itself is not among the sources). *)
Fixpoint hashValue (v : JsVal) : string :=
  match v with
  | VUndefined => "undefined"
  | VNull => "null"
  | VBool b => if b then "true" else "false"
  | VNum n => pretty n
  | VStr s => quote ++ s ++ quote
  | VArr _ items =>
      "[" ++
      (fix go (l : list JsVal) : string :=
         match l with
         | [] => ""
         | x :: r => hashValue x ++ "," ++ go r
         end) items ++ "]"
  | VObj _ fields =>
      "{" ++
      (fix go (l : list (string * JsVal)) : string :=
         match l with
         | [] => ""
         | (k, x) :: r => quote ++ k ++ quote ++ ":" ++ hashValue x ++ "," ++ go r
         end) fields ++ "}"
  | VOpaque ref => "#" ++ pretty ref
  end.

Fixpoint hashList (l : list JsVal) : string :=
  match l with
  | [] => ""
  | x :: r => hashValue x ++ "," ++ hashList r
  end.

Definition hashParams (params : list JsVal) : string :=
  "[" ++ hashList params ++ "]".

(** *** Templates and factories *)

Record Destructor := {
  destructorName : string;
  destructorThrows : bool;
}.

(** The "atom API" envelope: [{ value, exports?, promise?, ttl? }]. *)
Record AtomApi := {
  api_value : JsVal;
  api_exports : list (string * JsVal);
  api_promise : option JsVal;
  api_ttl : option N;
}.

(** The state-holder contract, reduced to the state it holds. *)
Record StateHolder := {
  getState : JsVal;
}.

Inductive FactoryResult : Type :=
| RValue (v : JsVal)
| RStateHolder (h : StateHolder)
| RApi (a : AtomApi).

(** Modelled from the spec: a factory is a program over the injection
    context; it returns or throws, after any number of [get], [getInstance]
    and [effect] calls. A template describes an atom: key, factory, ttl,
    whether it requires params, and its identity as an object
    ([templateRef]). *)
Inductive Factory : Type :=
| FReturn (r : FactoryResult)
| FThrow (err : JsVal)
| FGet (t : Template) (params : list JsVal) (k : JsVal -> Factory)
| FGetInstance (t : Template) (params : list JsVal) (k : Factory)
| FEffect (d : Destructor) (k : Factory)
with Template : Type :=
| MkTemplate (key : string) (factory : list JsVal -> Factory)
    (ttl : option N) (requiresParams : bool) (templateRef : nat).

Definition key (t : Template) : string :=
  match t with MkTemplate k _ _ _ _ => k end.
Definition factory (t : Template) : list JsVal -> Factory :=
  match t with MkTemplate _ f _ _ _ => f end.
Definition templateTtl (t : Template) : option N :=
  match t with MkTemplate _ _ l _ _ => l end.
Definition requiresParams (t : Template) : bool :=
  match t with MkTemplate _ _ _ r _ => r end.
Definition templateRef (t : Template) : nat :=
  match t with MkTemplate _ _ _ _ r => r end.

(** *** Nodes, edges and the Ecosystem *)

Inductive Lifecycle : Type :=
| Initializing
| Active
| Stale
| Destroyed.

Inductive PromiseStatus : Type :=
| idle
| loading
| success
| error.

Inductive Reason : Type :=
| stateChanged
| destroyed
| edgeAdded.

(** What a notify callback asks of the host framework. *)
Inductive HostEffect : Type :=
| ForceRender (component : string)
| SetReactState (component : string) (val : JsVal).

Definition Callback : Type := Reason -> JsVal -> list HostEffect.

Record Edge := {
  flags : Z;
  operation : string;
  notify : option Callback;
}.

Record AtomInstance := {
  id : string;
  serial : nat;
  template : Template;
  templateKey : string;
  paramsHash : string;
  params : list JsVal;
  stateHolder : StateHolder;
  exports : list (string * JsVal);
  promise : option JsVal;
  promiseStatus : PromiseStatus;
  promiseError : option JsVal;
  activeState : Lifecycle;
  destructors : list Destructor;
  ttl : option N;
  ttlTimer : option N;
  overrideOf : option nat;
  weight : nat;
}.

(** An external subscriber: a host component, with the callback that
    re-renders it and the instance it observes. *)
Record ExternalSubscriber := {
  xid : string;
  xserial : nat;
  xnotify : Callback;
  observed : option (string * nat);
}.

Inductive Node : Type :=
| AtomInstanceNode (i : AtomInstance)
| ExternalSubscriberNode (x : ExternalSubscriber).

(** A pending notification: the dependent, the node it is about, and the
    edge as it was when the notification was scheduled. *)
Record Job := {
  dependent : string;
  source : string;
  reason : Reason;
  jobEdge : Edge;
  jobVal : JsVal;
  jobExternal : bool;
  jobWeight : nat;
}.

Inductive EngineEvent : Type :=
| EvEdgeCreated (fromId toId : string) (flags : Z)
| EvEdgeRemoved (fromId toId : string)
| EvActiveStateChanged (id : string) (serial : nat) (to : Lifecycle)
| EvStateChanged (id : string) (val : JsVal)
| EvDelivered (dependent source : string) (reason : Reason) (flags : Z)
| EvDropped (dependent source : string) (reason : Reason)
| EvReevaluated (id : string)
| EvDestructorRan (name : string)
| EvDestructorThrew (name : string)
| EvFactoryThrew (id : string) (err : JsVal)
| EvHost (h : HostEffect).

Inductive EngineError : Type :=
| InvalidParams
| InjectionOutOfScope
| InstanceDestroyed
| CyclicDependency
| FactoryThrew (err : JsVal)
| NodeKindMismatch
| OutOfFuel.

Definition Result (A : Type) : Type := Completion EngineError A.

(** The registry [n], the edges of the graph (one per pair of endpoints;
    the two maps each node holds are the two projections of this one), the
    override table, the queue of pending notifications, the stack of
    running factories, the event log, the allocator of object identities
    and the clock of the destruction scheduler. *)
Record Ecosystem := {
  n : gmap string Node;
  edges : gmap (string * string) Edge;
  overridesById : gmap string Template;
  _scheduler : list Job;
  injectionStack : list string;
  log : list EngineEvent;
  nextSerial : nat;
  now : N;
}.

Definition empty : Ecosystem :=
  {| n := ∅; edges := ∅; overridesById := ∅; _scheduler := [];
     injectionStack := []; log := []; nextSerial := 0; now := 0%N |}.

Definition withNodes (e : Ecosystem) (m : gmap string Node) : Ecosystem :=
  {| n := m; edges := edges e; overridesById := overridesById e;
     _scheduler := _scheduler e; injectionStack := injectionStack e;
     log := log e; nextSerial := nextSerial e; now := now e |}.

Definition withEdges (e : Ecosystem) (m : gmap (string * string) Edge)
  : Ecosystem :=
  {| n := n e; edges := m; overridesById := overridesById e;
     _scheduler := _scheduler e; injectionStack := injectionStack e;
     log := log e; nextSerial := nextSerial e; now := now e |}.


Definition withScheduler (e : Ecosystem) (q : list Job) : Ecosystem :=
  {| n := n e; edges := edges e; overridesById := overridesById e;
     _scheduler := q; injectionStack := injectionStack e;
     log := log e; nextSerial := nextSerial e; now := now e |}.

Definition withStack (e : Ecosystem) (st : list string) : Ecosystem :=
  {| n := n e; edges := edges e; overridesById := overridesById e;
     _scheduler := _scheduler e; injectionStack := st;
     log := log e; nextSerial := nextSerial e; now := now e |}.

Definition withNow (e : Ecosystem) (t : N) : Ecosystem :=
  {| n := n e; edges := edges e; overridesById := overridesById e;
     _scheduler := _scheduler e; injectionStack := injectionStack e;
     log := log e; nextSerial := nextSerial e; now := t |}.

(** [log(event)]: the event stream is append-only. *)
Definition emit (ev : EngineEvent) (e : Ecosystem) : Ecosystem :=
  {| n := n e; edges := edges e; overridesById := overridesById e;
     _scheduler := _scheduler e; injectionStack := injectionStack e;
     log := log e ++ [ev]; nextSerial := nextSerial e; now := now e |}.

Definition allocSerial (e : Ecosystem) : nat * Ecosystem :=
  (nextSerial e,
   {| n := n e; edges := edges e; overridesById := overridesById e;
      _scheduler := _scheduler e; injectionStack := injectionStack e;
      log := log e; nextSerial := S (nextSerial e); now := now e |}).

Definition getNodeById (e : Ecosystem) (i : string) : option Node :=
  n e !! i.

Definition registered (e : Ecosystem) (i : string) : bool :=
  bool_decide (is_Some (n e !! i)).

Definition hasFlag (fl bit : Z) : bool := negb (Z.land fl bit =? 0)%Z.

(** *** Updates of an instance *)

Definition setTtlTimer (t : option N) (a : AtomInstance) : AtomInstance :=
  {| id := id a; serial := serial a; template := template a;
     templateKey := templateKey a; paramsHash := paramsHash a;
     params := params a; stateHolder := stateHolder a; exports := exports a;
     promise := promise a; promiseStatus := promiseStatus a;
     promiseError := promiseError a; activeState := activeState a;
     destructors := destructors a; ttl := ttl a; ttlTimer := t;
     overrideOf := overrideOf a; weight := weight a |}.



Definition updateInstance (e : Ecosystem) (i : string)
    (f : AtomInstance -> AtomInstance) : Ecosystem :=
  withNodes e
    (alter (fun nd =>
              match nd with
              | AtomInstanceNode a => AtomInstanceNode (f a)
              | ExternalSubscriberNode x => ExternalSubscriberNode x
              end) i (n e)).

(** [instance.get()] on a registered node; [undefined] otherwise. *)
Definition stateOf (e : Ecosystem) (i : string) : JsVal :=
  match n e !! i with
  | Some (AtomInstanceNode a) => getState (stateHolder a)
  | _ => VUndefined
  end.

Definition weightOfNode (e : Ecosystem) (i : string) : nat :=
  match n e !! i with
  | Some (AtomInstanceNode a) => weight a
  | _ => 0
  end.

(** *** The Graph *)

(** The dependents of a node (the edges that point to it, each with the
    id of the dependent) and the ids of its dependencies. *)
Definition dependentEdges (e : Ecosystem) (i : string)
  : list (string * Edge) :=
  omap (fun p : (string * string) * Edge =>
          if bool_decide (p.1.2 = i) then Some (p.1.1, p.2) else None)
    (map_to_list (edges e)).

Definition dependencyIds (e : Ecosystem) (i : string) : list string :=
  omap (fun p : (string * string) * Edge =>
          if bool_decide (p.1.1 = i) then Some p.1.2 else None)
    (map_to_list (edges e)).

Definition hasDependents (e : Ecosystem) (i : string) : bool :=
  match dependentEdges e i with
  | [] => false
  | _ :: _ => true
  end.

(** Modelled from the spec: [addEdge(fromId, toId, flags, notify,
    operation)] of the Graph, "idempotent on (fromId, toId); if an edge
    exists, flags are OR-merged and the notify callback is not replaced". An
    edge needs both endpoints registered (invariant 2); acquiring a
    dependent cancels the scheduled destruction (invariant 6). *)
Definition addEdge (e : Ecosystem) (fromId toId : string) (fl : Z)
    (cb : option Callback) (op : string) : Ecosystem :=
  match edges e !! (fromId, toId) with
  | Some old =>
      withEdges e
        (<[(fromId, toId) :=
             {| flags := Z.lor (flags old) fl;
                operation := operation old;
                notify := notify old |}]> (edges e))
  | None =>
      if registered e fromId && registered e toId
      then
        emit (EvEdgeCreated fromId toId fl)
          (withEdges (updateInstance e toId (setTtlTimer None))
             (<[(fromId, toId) :=
                  {| flags := fl; operation := op; notify := cb |}]>
                (edges e)))
      else e
  end.

(** Modelled from the spec: the delivery order, atoms by ascending weight,
    External edges last. *)
Definition deliveredAfter (x j : Job) : bool :=
  if jobExternal x then negb (jobExternal j)
  else negb (jobExternal j) && (jobWeight j <? jobWeight x)%nat.

Fixpoint enqueue (j : Job) (q : list Job) : list Job :=
  match q with
  | [] => [j]
  | x :: r => if deliveredAfter x j then j :: x :: r else x :: enqueue j r
  end.

(** Modelled from the spec: the notifications one dependent edge gives rise
    to; none when the reason is [stateChanged] and the edge is [Static]. *)
Definition jobFor (e : Ecosystem) (fromId : string) (r : Reason)
    (d : string * Edge) : option Job :=
  match r with
  | stateChanged =>
      if hasFlag (flags d.2) Utils.Static then None
      else
        Some {| dependent := d.1; source := fromId; reason := r;
                jobEdge := d.2; jobVal := stateOf e fromId;
                jobExternal := hasFlag (flags d.2) Utils.External;
                jobWeight := weightOfNode e d.1 |}
  | _ =>
      Some {| dependent := d.1; source := fromId; reason := r;
              jobEdge := d.2; jobVal := stateOf e fromId;
              jobExternal := hasFlag (flags d.2) Utils.External;
              jobWeight := weightOfNode e d.1 |}
  end.

(** Modelled from the spec: [scheduleNotify(fromId, reason)] of the Graph. A
    [Static] edge "suppresses stateChanged delivery"; its receiver gets
    "only existence and destroy signals". *)
Definition scheduleNotify (e : Ecosystem) (fromId : string) (r : Reason)
  : Ecosystem :=
  withScheduler e
    (foldl (fun q j => enqueue j q) (_scheduler e)
       (omap (jobFor e fromId r) (dependentEdges e fromId))).

(** Modelled from the spec: invariant 6, an instance left without dependents
    and with a finite ttl is scheduled for destruction at [now + ttl]. *)
Definition releaseDependency (e : Ecosystem) (dep : string) : Ecosystem :=
  if hasDependents e dep then e
  else
    match n e !! dep with
    | Some (AtomInstanceNode a) =>
        match ttl a with
        | Some t => updateInstance e dep (setTtlTimer (Some (now e + t)%N))
        | None => e
        end
    | _ => e
    end.

Definition runDestructor (e : Ecosystem) (d : Destructor) : Ecosystem :=
  if destructorThrows d then emit (EvDestructorThrew (destructorName d)) e
  else emit (EvDestructorRan (destructorName d)) e.

(** Modelled from the spec: the destruction of a node (section 4.3):
    transition to Destroyed, destructors in LIFO order with their errors
    swallowed into the log, [destroyed] emitted to the dependents and all
    edges removed, removal from the registry. The dependencies the node
    releases are handed to the destruction scheduler. *)
Definition destroyNode (e : Ecosystem) (i : string) : Ecosystem :=
  match n e !! i with
  | None => e
  | Some nd =>
      let e1 :=
        match nd with
        | AtomInstanceNode a =>
            foldl runDestructor
              (emit (EvActiveStateChanged i (serial a) Destroyed) e)
              (rev (destructors a))
        | ExternalSubscriberNode _ => e
        end in
      let e2 := scheduleNotify e1 i destroyed in
      let deps := dependencyIds e2 i in
      let e3 :=
        withEdges e2
          (filter (fun p : (string * string) * Edge =>
                     p.1.1 ≠ i ∧ p.1.2 ≠ i) (edges e2)) in
      let e4 := foldl releaseDependency e3 deps in
      withNodes e4 (delete i (n e4))
  end.

(** Modelled from the spec: [removeEdge(fromId, toId)] of the Graph, "if
    this was the last dependent of toId, mark toId eligible for ttl-based
    destruction; if toId ttl is 0 and it has no other dependents, destroy
    immediately". *)
Definition removeEdge (e : Ecosystem) (fromId toId : string) : Ecosystem :=
  match edges e !! (fromId, toId) with
  | None => e
  | Some _ =>
      let e1 :=
        emit (EvEdgeRemoved fromId toId)
          (withEdges e (delete (fromId, toId) (edges e))) in
      if hasDependents e1 toId then e1
      else
        match n e1 !! toId with
        | Some (AtomInstanceNode a) =>
            match ttl a with
            | Some 0%N => destroyNode e1 toId
            | Some t =>
                updateInstance e1 toId (setTtlTimer (Some (now e1 + t)%N))
            | None => e1
            end
        | _ => e1
        end
  end.

(** What the claims call "eligible for ttl-based destruction": the node
    is registered, nothing depends on it, and when its ttl is finite its
    destruction is scheduled at [now + ttl]. *)
Definition ttlEligible (e : Ecosystem) (i : string) : Prop :=
  exists a,
    n e !! i = Some (AtomInstanceNode a) /\
    hasDependents e i = false /\
    forall t, ttl a = Some t -> ttlTimer a = Some (now e + t)%N.

(** Modelled from the spec: [destroy(id, force?)] "removes if ttl says so or
    force; returns whether destruction happened". *)
Definition ttlSaysSo (e : Ecosystem) (i : string) (a : AtomInstance)
  : bool :=
  negb (hasDependents e i) &&
  match ttl a with
  | Some 0%N => true
  | _ =>
      match ttlTimer a with
      | Some t => (t <=? now e)%N
      | None => false
      end
  end.

Definition destroy (e : Ecosystem) (i : string) (force : bool)
  : bool * Ecosystem :=
  match n e !! i with
  | Some (AtomInstanceNode a) =>
      if force || ttlSaysSo e i a then (true, destroyNode e i)
      else (false, e)
  | Some (ExternalSubscriberNode _) =>
      if force then (true, destroyNode e i) else (false, e)
  | None => (false, e)
  end.



(** *** Running a factory *)

Inductive FactoryOutcome : Type :=
| Returned (r : FactoryResult)
| Threw (err : JsVal).

(** Modelled from the spec: the run of a factory for the node [self], given
    the function that resolves the atoms it reads. Every [get] adds an
    Explicit edge from [self] to the atom read, every [getInstance] an
    Explicit Static one; the ids read and the destructors registered are
    collected. *)
Fixpoint runFactory
    (gn : Ecosystem -> Template -> list JsVal ->
          Result (AtomInstance * Ecosystem))
    (e : Ecosystem) (self : string) (fac : Factory)
    (reads : list string) (dtors : list Destructor)
  : Result (FactoryOutcome * Ecosystem * list string * list Destructor) :=
  match fac with
  | FReturn r => Normal (Returned r, e, reads, dtors)
  | FThrow err => Normal (Threw err, e, reads, dtors)
  | FGet t ps k =>
      match gn e t ps with
      | Throw x => Throw x
      | Normal (inst, e1) =>
          runFactory gn
            (addEdge e1 self (id inst) Utils.Explicit None "get")
            self (k (getState (stateHolder inst))) (id inst :: reads) dtors
      end
  | FGetInstance t ps k =>
      match gn e t ps with
      | Throw x => Throw x
      | Normal (inst, e1) =>
          runFactory gn
            (addEdge e1 self (id inst)
               (Z.lor Utils.Explicit Utils.Static) None "getInstance")
            self k (id inst :: reads) dtors
      end
  | FEffect d k => runFactory gn e self k reads (dtors ++ [d])
  end.

(** Modelled from the spec: step 5 of the construction, where a value is
    wrapped in a state holder, a state holder is adopted, an envelope is
    unpacked. *)
Definition resultHolder (r : FactoryResult) : StateHolder :=
  match r with
  | RValue v => {| getState := v |}
  | RStateHolder h => h
  | RApi a => {| getState := api_value a |}
  end.

Definition resultExports (r : FactoryResult) : list (string * JsVal) :=
  match r with
  | RApi a => api_exports a
  | _ => []
  end.

Definition resultPromise (r : FactoryResult) : option JsVal :=
  match r with
  | RApi a => api_promise a
  | _ => None
  end.

Definition resultTtl (t : Template) (r : FactoryResult) : option N :=
  match r with
  | RApi a =>
      match api_ttl a with
      | Some l => Some l
      | None => templateTtl t
      end
  | _ => templateTtl t
  end.

(** Modelled from the spec: invariant 5, 1 + the weights of the atoms the
    node depends on. *)
Definition weightOf (e : Ecosystem) (i : string) : nat :=
  S (foldr (fun d acc => weightOfNode e d + acc) 0 (dependencyIds e i)).

(** Modelled from the spec: step 1 of the construction. *)
Definition resolveTemplate (e : Ecosystem) (t : Template) : Template :=
  match overridesById e !! key t with
  | Some t' => t'
  | None => t
  end.

Definition instanceId (t : Template) (ps : list JsVal) : string :=
  key t ++ "-" ++ hashParams ps.

(** Modelled from the spec: the instance as registered by step 2, then as
    completed by steps 5 and 6 ("Active", or "Stale if a pending promise was
    registered"). *)
Definition initialInstance (t t' : Template) (ps : list JsVal) (sn : nat)
  : AtomInstance :=
  {| id := instanceId t ps; serial := sn; template := t';
     templateKey := key t; paramsHash := hashParams ps; params := ps;
     stateHolder := {| getState := VUndefined |}; exports := [];
     promise := None; promiseStatus := idle; promiseError := None;
     activeState := Initializing; destructors := [];
     ttl := templateTtl t'; ttlTimer := None;
     overrideOf :=
       if bool_decide (templateRef t' = templateRef t) then None
       else Some (templateRef t);
     weight := 1 |}.

Definition completeInstance (a : AtomInstance) (r : FactoryResult)
    (dtors : list Destructor) (w : nat) : AtomInstance :=
  {| id := id a; serial := serial a; template := template a;
     templateKey := templateKey a; paramsHash := paramsHash a;
     params := params a; stateHolder := resultHolder r;
     exports := resultExports r; promise := resultPromise r;
     promiseStatus :=
       match resultPromise r with
       | Some _ => loading
       | None => idle
       end;
     promiseError := None;
     activeState :=
       match resultPromise r with
       | Some _ => Stale
       | None => Active
       end;
     destructors := dtors; ttl := resultTtl (template a) r;
     ttlTimer := ttlTimer a; overrideOf := overrideOf a; weight := w |}.

(** Modelled from the spec: [getNode(template, params)] of the Ecosystem,
    "resolves or creates" (sections 4.1 and 4.3). [fuel] bounds the depth of
    nested factory runs. An id stands for one pair of a template key and a
    params hash: a node of another kind or key found under it is a clash,
    and a node that is on the injection stack is a cycle. *)
Fixpoint getNode (fuel : nat) (e : Ecosystem) (t : Template)
    (ps : list JsVal) {struct fuel} : Result (AtomInstance * Ecosystem) :=
  match fuel with
  | O => Throw OutOfFuel
  | S f =>
      let t' := resolveTemplate e t in
      if requiresParams t' && bool_decide (ps = []) then Throw InvalidParams
      else
        let i := instanceId t ps in
        match n e !! i with
        | Some (AtomInstanceNode a) =>
            if bool_decide (i ∈ injectionStack e) then Throw CyclicDependency
            else if bool_decide (templateKey a = key t) then Normal (a, e)
            else Throw NodeKindMismatch
        | Some (ExternalSubscriberNode _) => Throw NodeKindMismatch
        | None =>
            let (sn, e0) := allocSerial e in
            let a0 := initialInstance t t' ps sn in
            let e1 :=
              withStack
                (emit (EvActiveStateChanged i sn Initializing)
                   (withNodes e0 (<[i := AtomInstanceNode a0]> (n e0))))
                (i :: injectionStack e0) in
            match runFactory (getNode f) e1 i (factory t' ps) [] [] with
            | Throw x => Throw x
            | Normal (Threw err, _, _, _) => Throw (FactoryThrew err)
            | Normal (Returned r, e2, _, dtors) =>
                let e3 := withStack e2 (injectionStack e) in
                let a := completeInstance a0 r dtors (weightOf e3 i) in
                Normal
                  (a,
                   emit (EvActiveStateChanged i sn (activeState a))
                     (withNodes e3 (<[i := AtomInstanceNode a]> (n e3))))
            end
        end
  end.



(** *** Delivering notifications *)





(** *** The Ecosystem's operations *)







Definition externalId (sn : nat) : string := "@@external-" ++ pretty sn.

(** Modelled from the spec: [subscribe(id, notify)] "creates an External
    edge", from a new external subscriber node. *)
Definition subscribe (e : Ecosystem) (i : string) (cb : Callback)
    (fl : Z) (op : string) : string * Ecosystem :=
  let (sn, e0) := allocSerial e in
  let x := {| xid := externalId sn; xserial := sn; xnotify := cb;
              observed := None |} in
  (externalId sn,
   addEdge (withNodes e0 (<[externalId sn := ExternalSubscriberNode x]> (n e0)))
     (externalId sn) i (Z.lor Utils.External fl) (Some cb) op).


(** *** Properties of a state of the engine *)

(** A notification of a state change, pending or delivered, never
    travels along an edge that carried [Static] when the state changed. *)
Definition okJob (j : Job) : Prop :=
  reason j = stateChanged -> hasFlag (flags (jobEdge j)) Utils.Static = false.




(** The registry is keyed by the ids of the nodes it holds. *)
Definition wellKeyed (e : Ecosystem) : Prop :=
  forall i nd, n e !! i = Some nd ->
    match nd with
    | AtomInstanceNode a => id a = i
    | ExternalSubscriberNode x => xid x = i
    end.

(** *** What the operations preserve *)

(** Every event but [EvDelivered], which only a delivery emits. *)
Definition harmless (ev : EngineEvent) : Prop :=
  match ev with
  | EvDelivered _ _ _ _ => False
  | _ => True
  end.

(** The same object, possibly updated. *)
Definition sameNode (nd nd' : Node) : Prop :=
  match nd, nd' with
  | AtomInstanceNode a, AtomInstanceNode a' =>
      template a' = template a /\ templateKey a' = templateKey a /\
      serial a' = serial a /\ id a' = id a
  | ExternalSubscriberNode x, ExternalSubscriberNode x' =>
      xserial x' = xserial x /\ xid x' = xid x
  | _, _ => False
  end.

(** A step of the Graph: it leaves the override table, the clock, the
    stack and the allocator alone, appends harmless events to the log,
    adds admissible notifications to the queue, and registers no new
    instance (the instances it keeps keep their template, key and
    serial). *)
Record basicStep (e e' : Ecosystem) : Prop := {
  step_overrides : overridesById e' = overridesById e;
  step_now : now e' = now e;
  step_stack : injectionStack e' = injectionStack e;
  step_serial : nextSerial e' = nextSerial e;
  step_log : exists evs, log e' = (log e ++ evs)%list /\ Forall harmless evs;
  step_queue :
    exists js,
      (forall j, j ∈ _scheduler e' <-> j ∈ _scheduler e \/ j ∈ js) /\
      Forall okJob js;
  step_nodes :
    forall i nd', n e' !! i = Some nd' ->
      exists nd, n e !! i = Some nd /\ sameNode nd nd';
}.

(** A relation between states that every operation of the engine short
    of a flush establishes between the state it starts from and the one
    it ends in. *)
Record Preserved (R : Ecosystem -> Ecosystem -> Prop) : Prop := {
  R_refl : forall e, R e e;
  R_trans : forall a b c, R a b -> R b c -> R a c;
  R_stack : forall e st, R e (withStack e st);
  R_basic : forall e e', basicStep e e' -> R e e';
  R_register : forall e t ps,
    R e (withNodes (allocSerial e).2
           (<[instanceId t ps :=
                AtomInstanceNode
                  (initialInstance t (resolveTemplate e t) ps (nextSerial e))]>
              (n e)));
  R_complete : forall e e3 t ps sn r dtors w,
    R e e3 ->
    R e (withNodes e3
           (<[instanceId t ps :=
                AtomInstanceNode
                  (completeInstance
                     (initialInstance t (resolveTemplate e t) ps sn)
                     r dtors w)]>
              (n e3)));
  R_recomplete : forall e i a r dtors w,
    n e !! i = Some (AtomInstanceNode a) ->
    R e (withNodes e
           (<[i := AtomInstanceNode (completeInstance a r dtors w)]> (n e)));
}.

(** Relations of this kind: the override table and the clock are kept,
    the log grows, an override in force stays in force, no state change
    is notified along a Static edge, the queue keeps what it holds. *)
Definition tableKept (e e' : Ecosystem) : Prop :=
  overridesById e' = overridesById e /\ now e' = now e.






Definition keysKept (e e' : Ecosystem) : Prop :=
  wellKeyed e -> wellKeyed e'.



(** The same, for a flush as well: taking a notification from the queue
    and logging its delivery. *)
Record PreservedByFlush (R : Ecosystem -> Ecosystem -> Prop) : Prop := {
  R_preserved : Preserved R;
  R_pop : forall e j q, _scheduler e = j :: q -> R e (withScheduler e q);
  R_popDeliver : forall e j q,
    _scheduler e = j :: q ->
    R e (emit (EvDelivered (dependent j) (source j) (reason j)
                 (flags (jobEdge j))) (withScheduler e q));
}.

End Engine.


(** ** [hooks/useAtomInstance.ts] and [hooks/useAtomInstanceDynamic.ts] *)

Module Hooks.

Import Engine.

(** What a hook throws: a value ([throw instance.promise]), or an error of
    the engine that escapes from a call the hook makes. *)
Inductive Thrown : Type :=
| ThrownValue (v : option JsVal)
| ThrownError (err : EngineError).

(** *** The external node of a component *)

(** Modelled from the spec: the [ExternalNode] class is not among the
    sources. It is the registry's "external subscriber" node of the
    component [observerId]; [node.u] adds the edge from the component to the
    instance (the Graph's [addEdge], notified through [render]) and
    remembers the instance in [node.i]; [node.k] removes that edge (the
    Graph's [removeEdge]) and the node goes when it observes nothing. A
    destroyed node has left the registry, so a variable that still holds it
    reads [l] as 'Destroyed'. *)

Definition renderCallback (observerId : string) : Callback :=
  fun _ _ => [ForceRender observerId].

Definition newExternalNode (e : Ecosystem) (observerId : string)
  : nat * Ecosystem :=
  let (sn, e0) := allocSerial e in
  (sn,
   withNodes e0
     (<[observerId :=
          ExternalSubscriberNode
            {| xid := observerId; xserial := sn;
               xnotify := renderCallback observerId; observed := None |}]>
        (n e0))).

(** [node.l === 'Destroyed'] for the node object of serial [sn]. *)
Definition nodeDestroyed (e : Ecosystem) (observerId : string) (sn : nat)
  : bool :=
  match n e !! observerId with
  | Some (ExternalSubscriberNode x) => negb (xserial x =? sn)%nat
  | _ => true
  end.

(** [node.i === instance] *)
Definition nodeObserves (e : Ecosystem) (observerId : string) (sn : nat)
    (inst : AtomInstance) : bool :=
  match n e !! observerId with
  | Some (ExternalSubscriberNode x) =>
      (xserial x =? sn)%nat &&
      bool_decide (observed x = Some (id inst, serial inst))
  | _ => false
  end.

Definition setObserved (e : Ecosystem) (observerId : string)
    (o : option (string * nat)) : Ecosystem :=
  withNodes e
    (alter (fun nd =>
              match nd with
              | ExternalSubscriberNode x =>
                  ExternalSubscriberNode
                    {| xid := xid x; xserial := xserial x;
                       xnotify := xnotify x; observed := o |}
              | AtomInstanceNode a => AtomInstanceNode a
              end) observerId (n e)).

(** [node.u(instance, operation, flags)] *)
Definition node_u (e : Ecosystem) (observerId : string)
    (inst : AtomInstance) (op : string) (fl : Z) : Ecosystem :=
  setObserved
    (addEdge e observerId (id inst) fl
       (Some (renderCallback observerId)) op)
    observerId (Some (id inst, serial inst)).

(** [node.k(instance)] *)
Definition node_k (e : Ecosystem) (observerId : string) (sn : nat)
    (inst : AtomInstance) : Ecosystem :=
  if nodeDestroyed e observerId sn then e
  else
    let e1 := removeEdge e observerId (id inst) in
    let e2 :=
      if nodeObserves e1 observerId sn inst
      then setObserved e1 observerId None else e1 in
    match dependencyIds e2 observerId with
    | [] => destroyNode e2 observerId
    | _ :: _ => e2
    end.

(** [instance.get()] and [instance.l] through a reference that a
    component holds: the registered object when it is still this one,
    else the last state and 'Destroyed'. *)
Definition instanceGet (e : Ecosystem) (inst : AtomInstance) : JsVal :=
  match n e !! id inst with
  | Some (AtomInstanceNode a) =>
      if (serial a =? serial inst)%nat then getState (stateHolder a)
      else getState (stateHolder inst)
  | _ => getState (stateHolder inst)
  end.

Definition instanceLifecycle (e : Ecosystem) (inst : AtomInstance)
  : Lifecycle :=
  match n e !! id inst with
  | Some (AtomInstanceNode a) =>
      if (serial a =? serial inst)%nat then activeState a else Destroyed
  | _ => Destroyed
  end.

Definition isDestroyed (l : Lifecycle) : bool :=
  match l with
  | Destroyed => true
  | _ => false
  end.

(** *** [useAtomInstance] *)

Definition OPERATION : string := "useAtomInstance".

Record ZeduxHookConfig := {
  operation : option string;
  subscribe : option bool;
  suspend : option bool;
}.

(** The default of the third parameter and of its [operation] field. *)
Definition defaultConfig : ZeduxHookConfig :=
  {| operation := Some OPERATION; subscribe := None; suspend := None |}.

Definition configOperation (c : ZeduxHookConfig) : string :=
  match operation c with
  | Some op => op
  | None => OPERATION
  end.

(** [subscribe ? ... : ...] *)
Definition truthy (b : option bool) : bool :=
  match b with
  | Some true => true
  | _ => false
  end.

(** [External | (subscribe ? 0 : Static)] *)
Definition edgeFlags (c : ZeduxHookConfig) : Z :=
  Z.lor Utils.External (if truthy (subscribe c) then 0 else Utils.Static).

(** [suspend !== false] *)
Definition suspends (c : ZeduxHookConfig) : bool :=
  match suspend c with
  | Some false => false
  | _ => true
  end.

(** The variables one render closes over: [node] is reassigned by
    [addEdge], [m] is the [mounted] property of [render]. *)
Record Closure := {
  c_observerId : string;
  c_config : ZeduxHookConfig;
  c_instance : AtomInstance;
  c_renderedValue : JsVal;
  c_node : nat;
  c_mounted : bool;
}.

Definition withNode (c : Closure) (sn : nat) : Closure :=
  {| c_observerId := c_observerId c; c_config := c_config c;
     c_instance := c_instance c; c_renderedValue := c_renderedValue c;
     c_node := sn; c_mounted := c_mounted c |}.

Definition withMounted (c : Closure) (m : bool) : Closure :=
  {| c_observerId := c_observerId c; c_config := c_config c;
     c_instance := c_instance c; c_renderedValue := c_renderedValue c;
     c_node := c_node c; c_mounted := m |}.

(** The local function [addEdge]. *)
Definition addEdge_closure (e : Ecosystem) (c : Closure)
  : Ecosystem * Closure :=
  let (e1, c1) :=
    if nodeDestroyed e (c_observerId c) (c_node c)
    then
      let (sn, e') := newExternalNode e (c_observerId c) in
      (e', withNode c sn)
    else (e, c) in
  if nodeObserves e1 (c_observerId c1) (c_node c1) (c_instance c1)
  then (e1, c1)
  else
    (node_u e1 (c_observerId c1) (c_instance c1)
       (configOperation (c_config c1)) (edgeFlags (c_config c1)),
     c1).

(** The end of the render: [if (suspend !== false) ...; return
    instance]. *)
Definition suspendOrReturn (c : ZeduxHookConfig) (instance : AtomInstance)
  : Completion Thrown AtomInstance :=
  if suspends c then
    match promiseStatus instance with
    | loading => Throw (ThrownValue (promise instance))
    | error => Throw (ThrownValue (promiseError instance))
    | _ => Normal instance
    end
  else Normal instance.

Record Render := {
  outcome : Completion Thrown AtomInstance;
  ecosystem : Ecosystem;
  closure : option Closure;
}.

(** The render of a component that calls the hook. [mounted] is what
    [render.m] holds from earlier renders. A call of the engine that
    throws ends the render; the state it leaves is not modelled. *)
Definition useAtomInstance (fuel : nat) (e : Ecosystem)
    (observerId : string) (mounted : bool) (atom : Template)
    (params : list JsVal) (config : option ZeduxHookConfig) : Render :=
  let cfg := match config with Some c => c | None => defaultConfig end in
  match getNode fuel e atom params with
  | Throw x =>
      {| outcome := Throw (ThrownError x); ecosystem := e; closure := None |}
  | Normal (instance, e1) =>
      let renderedValue := instanceGet e1 instance in
      match n e1 !! observerId with
      | Some (AtomInstanceNode _) =>
          {| outcome := Throw (ThrownError NodeKindMismatch);
             ecosystem := e1; closure := None |}
      | found =>
          let (sn, e2) :=
            match found with
            | Some (ExternalSubscriberNode x) => (xserial x, e1)
            | _ => newExternalNode e1 observerId
            end in
          let c0 :=
            {| c_observerId := observerId; c_config := cfg;
               c_instance := instance; c_renderedValue := renderedValue;
               c_node := sn; c_mounted := mounted |} in
          let (e3, c1) := addEdge_closure e2 c0 in
          {| outcome := suspendOrReturn cfg instance;
             ecosystem := e3; closure := Some c1 |}
      end
  end.

(** The effect of [useEffect(..., [instance.id])]; the boolean tells
    whether it asked for a rerender. *)
Definition useAtomInstance_effect (e : Ecosystem) (c : Closure)
  : Ecosystem * Closure * bool :=
  let (e1, c1) := addEdge_closure e c in
  let c2 := withMounted c1 true in
  if negb (strictEq (instanceGet e1 (c_instance c2)) (c_renderedValue c2))
     || isDestroyed (instanceLifecycle e1 (c_instance c2))
  then (emit (EvHost (ForceRender (c_observerId c2))) e1, c2, true)
  else (e1, c2, false).

(** The cleanup the effect returns. *)
Definition useAtomInstance_cleanup (e : Ecosystem) (c : Closure)
  : Ecosystem :=
  node_k e (c_observerId c) (c_node c) (c_instance c).

(** *** [useAtomInstanceDynamic] *)


(** What the [useMemo] of a component keeps: its dependencies [atom],
    [force] and [stableParams], and its value, the instance and the
    dependent that [unregister] removes. *)
Record Memo := {
  m_atom : nat;
  m_force : nat;
  m_params : list JsVal;
  m_instance : AtomInstance;
  m_unregister : string;
}.

Record Component := {
  component : string;
  force : nat;
  reactState : option JsVal;
  memo : option Memo;
}.



Section Dynamic.

(** [instance._isPromiseResolved] belongs to an instance class that is
    not among the sources. *)
Variable isPromiseResolved : AtomInstance -> bool.



End Dynamic.


End Hooks.


(** ** The states the operations lead to *)

Module System.

Import Engine.


End System.

(** ** [getReactContext] *)

Module ReactContexts.

(** What [reactStorage[key]] evaluates to: a context that [createContext]
    returned, or a property the object literal inherits from
    [Object.prototype]. Both are truthy. *)
Inductive Stored : Type :=
| Context (ref : nat)
| Inherited (name : string).

(** The properties of [Object.prototype], those of Annex B included. *)
Definition ObjectPrototype_keys : list string :=
  ["constructor"; "hasOwnProperty"; "isPrototypeOf"; "propertyIsEnumerable";
   "toLocaleString"; "toString"; "valueOf"; "__proto__";
   "__defineGetter__"; "__defineSetter__"; "__lookupGetter__";
   "__lookupSetter__"].

Record AnyAtomTemplate := {
  key : string;
}.

(** The part of an ecosystem the function touches: [_storage.react],
    [undefined] or the object literal with the contexts as own
    properties, and the number of contexts [createContext] has made for
    it; each call of [createContext] returns a new object. *)
Record Ecosystem := {
  _storage_react : option (gmap string nat);
  contextsCreated : nat;
}.

(** [o[k]] on an object literal: the own property, else the inherited
    one, else [undefined]. *)
Definition getProperty (o : gmap string nat) (k : string) : option Stored :=
  match o !! k with
  | Some c => Some (Context c)
  | None =>
      if bool_decide (k ∈ ObjectPrototype_keys) then Some (Inherited k)
      else None
  end.

(** [const reactStorage = (ecosystem._storage.react ||= {});
    return (reactStorage[atom.key] ||= createContext(undefined))] *)
Definition getReactContext (ecosystem : Ecosystem) (atom : AnyAtomTemplate)
  : Stored * Ecosystem :=
  let reactStorage :=
    match _storage_react ecosystem with
    | Some o => o
    | None => ∅
    end in
  match getProperty reactStorage (key atom) with
  | Some v =>
      (v, {| _storage_react := Some reactStorage;
             contextsCreated := contextsCreated ecosystem |})
  | None =>
      let c := contextsCreated ecosystem in
      (Context c,
       {| _storage_react := Some (<[key atom := c]> reactStorage);
          contextsCreated := S c |})
  end.

(** The storage [getReactContext] builds: every own property is a
    context made for this ecosystem, under a key that [Object.prototype]
    does not define, and no two keys share a context. *)
Definition ownContexts (e : Ecosystem) : gmap string nat :=
  match _storage_react e with
  | Some o => o
  | None => ∅
  end.

Definition wellFormed (e : Ecosystem) : Prop :=
  (forall k c, ownContexts e !! k = Some c ->
     c < contextsCreated e /\ k ∉ ObjectPrototype_keys) /\
  (forall k1 k2 c, ownContexts e !! k1 = Some c ->
     ownContexts e !! k2 = Some c -> k1 = k2).

(** A new ecosystem: nothing is stored. *)
Definition fresh : Ecosystem :=
  {| _storage_react := None; contextsCreated := 0 |}.

End ReactContexts.

(** ** The subscription of the [Log] component *)

Module LogSubscription.

(** [state.log] is an array: it has an identity, which [===] compares,
    and its events. *)
Record Log := {
  log_ref : nat;
  events : list LogView.LogEvent;
}.

Record StoreState := {
  log : Log;
}.

(** [newState.log === oldState?.log] *)
Definition sameLog (newState : StoreState) (oldState : option StoreState)
  : bool :=
  match oldState with
  | Some old => (log_ref (log newState) =? log_ref (log old))%nat
  | None => false
  end.

(** One mounted [Log] component: the React state [log]; [isCurrent] of
    each run of the effect, in the order of the runs; the callbacks
    passed to [setTimeout] and not run yet, each with the run it belongs
    to and the [newState.log] it closes over; and every call of [setLog]
    so far with the run that made it. *)
Record Component := {
  shown : Log;
  isCurrent : list bool;
  timeouts : list (nat * Log);
  setLogCalls : list (nat * Log);
}.

Definition setLog (c : Component) (run : nat) (l : Log) : Component :=
  {| shown := l; isCurrent := isCurrent c; timeouts := timeouts c;
     setLogCalls := setLogCalls c ++ [(run, l)] |}.

(** The body of the effect: [let isCurrent = true], the subscription,
    and [setLog(instance.store.getState().log)]. It returns the number
    of the run, which stands for its closure. *)
Definition effect (c : Component) (state : StoreState) : nat * Component :=
  let run := length (isCurrent c) in
  (run,
   setLog
     {| shown := shown c; isCurrent := isCurrent c ++ [true];
        timeouts := timeouts c; setLogCalls := setLogCalls c |}
     run (log state)).

(** The subscriber of the run [run]. *)
Definition subscriber (c : Component) (run : nat) (newState : StoreState)
    (oldState : option StoreState) : Component :=
  if sameLog newState oldState then c
  else
    {| shown := shown c; isCurrent := isCurrent c;
       timeouts := timeouts c ++ [(run, log newState)];
       setLogCalls := setLogCalls c |}.

(** The host runs the oldest pending callback:
    [if (isCurrent) setLog(newState.log)]. *)
Definition timeout (c : Component) : Component :=
  match timeouts c with
  | [] => c
  | (run, l) :: rest =>
      let c' :=
        {| shown := shown c; isCurrent := isCurrent c; timeouts := rest;
           setLogCalls := setLogCalls c |} in
      match isCurrent c !! run with
      | Some true => setLog c' run l
      | _ => c'
      end
  end.

(** The cleanup of the run [run]: [isCurrent = false]. (What
    [subscription.unsubscribe()] does is up to the store.) *)
Definition cleanup (c : Component) (run : nat) : Component :=
  {| shown := shown c; isCurrent := <[run := false]> (isCurrent c);
     timeouts := timeouts c; setLogCalls := setLogCalls c |}.

(** What can happen to a mounted component, in any order. *)
Inductive Event : Type :=
| RunEffect (state : StoreState)
| Notify (run : nat) (newState : StoreState) (oldState : option StoreState)
| Timeout
| Cleanup (run : nat).

Definition step (c : Component) (ev : Event) : Component :=
  match ev with
  | RunEffect state => (effect c state).2
  | Notify run newState oldState => subscriber c run newState oldState
  | Timeout => timeout c
  | Cleanup run => cleanup c run
  end.

Definition run (c : Component) (evs : list Event) : Component :=
  foldl step c evs.

(** [useState(instance.store.getState().log)] on the first render. *)
Definition mount (state : StoreState) : Component :=
  {| shown := log state; isCurrent := []; timeouts := []; setLogCalls := [] |}.

(** The [setLog] calls of one run. *)
Definition callsOf (run : nat) (c : Component) : list Log :=
  omap (fun p : nat * Log =>
          if (p.1 =? run)%nat then Some p.2 else None) (setLogCalls c).

(** Where a log that [setLog] was given, or that a pending timeout
    holds, comes from. *)
Definition fromStore (c : Component) (evs : list Event) (r : nat) (l : Log)
  : Prop :=
  (r, l) ∈ setLogCalls c \/ (r, l) ∈ timeouts c \/
  (exists s, RunEffect s ∈ evs /\ l = log s) \/
  (exists n o, Notify r n o ∈ evs /\ sameLog n o = false /\ l = log n).

End LogSubscription.

(** ** Changing one filter of the [Log] component *)

Module LogFilters.

(** The filters with another [atomFilter], and with another
    [atomInstanceKeyHashFilter]. *)
Definition withAtomFilter (f : LogView.Filters)
    (l : option (list string)) : LogView.Filters :=
  {| LogView.atomFilter := l;
     LogView.atomFlagsFilter := LogView.atomFlagsFilter f;
     LogView.atomInstanceFilter := LogView.atomInstanceFilter f;
     LogView.atomInstanceActiveStateFilter :=
       LogView.atomInstanceActiveStateFilter f;
     LogView.atomInstanceKeyHashFilter := LogView.atomInstanceKeyHashFilter f;
     LogView.edgeTypeFilter := LogView.edgeTypeFilter f;
     LogView.eventTypeFilter := LogView.eventTypeFilter f |}.

Definition withKeyHashFilter (f : LogView.Filters)
    (l : option (list string)) : LogView.Filters :=
  {| LogView.atomFilter := LogView.atomFilter f;
     LogView.atomFlagsFilter := LogView.atomFlagsFilter f;
     LogView.atomInstanceFilter := LogView.atomInstanceFilter f;
     LogView.atomInstanceActiveStateFilter :=
       LogView.atomInstanceActiveStateFilter f;
     LogView.atomInstanceKeyHashFilter := l;
     LogView.edgeTypeFilter := LogView.edgeTypeFilter f;
     LogView.eventTypeFilter := LogView.eventTypeFilter f |}.

(** The edge an event is about, and the instances it is about: the
    dependency and, when it is an instance, the dependent of an edge;
    the dependency of a ghost edge; the instance of a state change. *)
Definition eventEdge (a : LogView.Action) : option LogView.DependentEdge :=
  match a with
  | LogView.EdgeCreated _ _ edge | LogView.EdgeRemoved _ _ edge => Some edge
  | LogView.GhostEdgeCreated ghost | LogView.GhostEdgeDestroyed ghost =>
      Some (LogView.ghost_edge ghost)
  | _ => None
  end.

Definition eventInstances (a : LogView.Action)
  : list LogView.AnyAtomInstanceBase :=
  match a with
  | LogView.EdgeCreated dependency dependent _
  | LogView.EdgeRemoved dependency dependent _ =>
      dependency ::
      match dependent with
      | LogView.DependentName _ => []
      | LogView.DependentInstance d => [d]
      end
  | LogView.GhostEdgeCreated ghost | LogView.GhostEdgeDestroyed ghost =>
      [LogView.ghost_dependency ghost]
  | LogView.InstanceActiveStateChanged instance
  | LogView.InstanceStateChanged instance => [instance]
  | LogView.OtherAction _ => []
  end.

End LogFilters.

(** ** What the [Log] component renders *)

Module LogRender.

(** One element of the list: [<EventComponent event={event}
    key={event.id} />], where [EventComponent] is
    [eventMap[event.action.type]]. *)
Record Element := {
  componentOf : string;
  event : LogView.LogEvent;
  key : Z;
}.

(** [filteredLog.map(event => ...)] *)
Definition render (f : LogView.Filters) (log : list LogView.LogEvent)
  : list Element :=
  map (fun ev =>
         {| componentOf := LogView.action_type (LogView.action ev);
            event := ev; key := LogView.id ev |})
    (LogView.filteredLog f log).

End LogRender.

(** ** Scenarios *)

Module Scenarios.

Import Engine.

(** [count]: a counter that starts at 0; [session]: the same with a ttl
    of 0; [double]: twice [count]; [remote]: an atom with a pending
    promise; [one] and [two]: a template that returns 1 and the template
    that overrides it and returns 2. *)
Definition count : Template :=
  MkTemplate "count" (fun _ => FReturn (RValue (VNum 0))) None false 1.

Definition session : Template :=
  MkTemplate "session" (fun _ => FReturn (RValue (VNum 0))) (Some 0%N) false 2.

Definition twice (v : JsVal) : JsVal :=
  match v with
  | VNum x => VNum (2 * x)
  | _ => VUndefined
  end.

Definition double : Template :=
  MkTemplate "double"
    (fun _ => FGet count [] (fun v => FReturn (RValue (twice v))))
    None false 3.

Definition thePromise : JsVal := VOpaque 7.

Definition remote : Template :=
  MkTemplate "remote"
    (fun _ =>
       FReturn
         (RApi {| api_value := VNull; api_exports := [];
                  api_promise := Some thePromise; api_ttl := None |}))
    None false 4.





(** A component that renders [useAtomInstance(t)] with the default
    config on an ecosystem. *)
Definition mounted (e : Ecosystem) (t : Template) : Ecosystem :=
  Hooks.ecosystem (Hooks.useAtomInstance 3 e "component" false t [] None).


(** The log filters and the log of the devtools. *)
Definition sampleInstance : LogView.AnyAtomInstanceBase :=
  {| LogView._activeState := Types.Active;
     LogView.atom := {| LogView.key := "count"; LogView.flags := None |};
     LogView.keyHash := "count" |}.

Definition sampleLog : list LogView.LogEvent :=
  [ {| LogView.id := 1; LogView.action := LogView.OtherAction "wipe" |};
    {| LogView.id := 2;
       LogView.action := LogView.InstanceStateChanged sampleInstance |} ].

Definition noFilters : LogView.Filters :=
  {| LogView.atomFilter := None; LogView.atomFlagsFilter := Some [];
     LogView.atomInstanceFilter := None;
     LogView.atomInstanceActiveStateFilter := None;
     LogView.atomInstanceKeyHashFilter := None;
     LogView.edgeTypeFilter :=
       {| LogView.filter_isExplicit := None;
          LogView.filter_isExternal := None;
          LogView.filter_isStatic := None |};
     LogView.eventTypeFilter := None |}.

Definition countFilter : LogView.Filters :=
  {| LogView.atomFilter := Some ["count"]; LogView.atomFlagsFilter := None;
     LogView.atomInstanceFilter := None;
     LogView.atomInstanceActiveStateFilter := None;
     LogView.atomInstanceKeyHashFilter := None;
     LogView.edgeTypeFilter :=
       {| LogView.filter_isExplicit := None;
          LogView.filter_isExternal := None;
          LogView.filter_isStatic := None |};
     LogView.eventTypeFilter := None |}.

End Scenarios.

(* ================================================================== *)
(** * Theorems *)

(** ** [isPlainObject] and [detailedTypeof] *)






(** ** The [ActiveState] enum *)




(** ** The filter of the devtools log *)

Lemma filter_sublist {A} (p : A -> bool) (l : list A) :
  List.filter p l `sublist_of` l.
Proof.
  induction l as [|x l IH]; simpl; [constructor|].
  destruct (p x); by constructor.
Qed.

Lemma noLength_empty {A} (xs : option (list A)) :
  LogView.noLength xs = true <-> xs = None \/ xs = Some [].
Proof.
  destruct xs as [[|x l]|]; simpl; split; intros H; auto;
    try discriminate H; destruct H as [H|H]; discriminate H.
Qed.

Lemma noFiltersSelected_iff (f : LogView.Filters) :
  LogView.noFiltersSelected f = true <->
  (LogView.atomFilter f = None \/ LogView.atomFilter f = Some []) /\
  (LogView.atomFlagsFilter f = None \/ LogView.atomFlagsFilter f = Some []) /\
  (LogView.atomInstanceActiveStateFilter f = None \/
   LogView.atomInstanceActiveStateFilter f = Some []) /\
  (LogView.atomInstanceFilter f = None \/
   LogView.atomInstanceFilter f = Some []) /\
  (LogView.atomInstanceKeyHashFilter f = None \/
   LogView.atomInstanceKeyHashFilter f = Some []) /\
  (LogView.filter_isExplicit (LogView.edgeTypeFilter f) = None /\
   LogView.filter_isExternal (LogView.edgeTypeFilter f) = None /\
   LogView.filter_isStatic (LogView.edgeTypeFilter f) = None) /\
  (LogView.eventTypeFilter f = None \/ LogView.eventTypeFilter f = Some []).
Proof.
  unfold LogView.noFiltersSelected.
  rewrite !andb_true_iff, !noLength_empty.
  assert ((length (LogView.definedEdgeTypes (LogView.edgeTypeFilter f)) =? 0)%nat
          = true <->
          LogView.filter_isExplicit (LogView.edgeTypeFilter f) = None /\
          LogView.filter_isExternal (LogView.edgeTypeFilter f) = None /\
          LogView.filter_isStatic (LogView.edgeTypeFilter f) = None) as ->.
  { unfold LogView.definedEdgeTypes.
    destruct (LogView.edgeTypeFilter f) as [[a|] [b|] [c|]]; simpl;
      split; intros H; try discriminate H; try tauto;
      destruct H as (H1 & H2 & H3); discriminate. }
  tauto.
Qed.

Lemma eventPasses_handled (f : LogView.Filters) (ev : LogView.LogEvent) :
  LogView.eventPasses f ev = true ->
  In (LogView.action_type (LogView.action ev)) LogView.handledTypes.
Proof.
  unfold LogView.eventPasses.
  destruct (_ && _); [discriminate|].
  destruct (LogView.action ev); simpl; intros H; try tauto.
  discriminate H.
Qed.

(** C9. The filtered log is an order-preserving subsequence of the log.
    When no filter is selected (every list empty or undefined, no
    edge-type field defined) it is the log itself. When a filter is
    active, every event it keeps has one of the six action types the
    switch names: the events of every other type are excluded. *)
Theorem filteredLog_spec (f : LogView.Filters) (log : list LogView.LogEvent) :
  LogView.filteredLog f log `sublist_of` log /\
  ((LogView.atomFilter f = None \/ LogView.atomFilter f = Some []) ->
   (LogView.atomFlagsFilter f = None \/ LogView.atomFlagsFilter f = Some []) ->
   (LogView.atomInstanceActiveStateFilter f = None \/
    LogView.atomInstanceActiveStateFilter f = Some []) ->
   (LogView.atomInstanceFilter f = None \/
    LogView.atomInstanceFilter f = Some []) ->
   (LogView.atomInstanceKeyHashFilter f = None \/
    LogView.atomInstanceKeyHashFilter f = Some []) ->
   (LogView.filter_isExplicit (LogView.edgeTypeFilter f) = None /\
    LogView.filter_isExternal (LogView.edgeTypeFilter f) = None /\
    LogView.filter_isStatic (LogView.edgeTypeFilter f) = None) ->
   (LogView.eventTypeFilter f = None \/ LogView.eventTypeFilter f = Some []) ->
   LogView.filteredLog f log = log) /\
  (LogView.noFiltersSelected f = false ->
   forall ev,
     In ev log ->
     ~ In (LogView.action_type (LogView.action ev)) LogView.handledTypes ->
     ~ In ev (LogView.filteredLog f log)).
Proof.
  split; [|split].
  - unfold LogView.filteredLog.
    destruct (LogView.noFiltersSelected f); [reflexivity|apply filter_sublist].
  - intros H1 H2 H3 H4 H5 H6 H7. unfold LogView.filteredLog.
    assert (LogView.noFiltersSelected f = true) as ->; [|reflexivity].
    apply noFiltersSelected_iff. tauto.
  - intros Hactive ev _ Hty Hin. unfold LogView.filteredLog in Hin.
    rewrite Hactive in Hin. apply filter_In in Hin as [_ Hp].
    by apply Hty, (eventPasses_handled f).
Qed.

Lemma filteredLog_spec_witness :
  LogView.filteredLog Scenarios.noFilters Scenarios.sampleLog =
    Scenarios.sampleLog /\
  ~ In {| LogView.id := 1; LogView.action := LogView.OtherAction "wipe" |}
      (LogView.filteredLog Scenarios.countFilter Scenarios.sampleLog).
Proof.
  split.
  - apply (filteredLog_spec Scenarios.noFilters Scenarios.sampleLog);
      simpl; auto.
  - apply (filteredLog_spec Scenarios.countFilter Scenarios.sampleLog).
    + reflexivity.
    + simpl. auto.
    + simpl. intros H. decompose [or] H; discriminate || contradiction.
Defined.

(** ** [useAtom] *)

(** C10, the call that refutes "every call whose first argument is falsy
    throws": a component that rendered once with a key and renders again
    with [undefined] gets the memoised template back; nothing is
    thrown. *)
Lemma useAtom_rerender_counterexample :
  let gen := fun _ : nat => "id" in
  let w1 := (UseAtom.useAtom (UseAtom.AString "App") gen UseAtom.mount
               (UseAtom.AString "count") (UseAtom.AFunction "f")).2 in
  UseAtom.ToBoolean UseAtom.AUndefined = false /\
  exists call,
    (UseAtom.useAtom (UseAtom.AString "App") gen w1
       UseAtom.AUndefined UseAtom.AUndefined).1 = Normal call.
Proof.
  split; [reflexivity|]. eexists. reflexivity.
Qed.

(** C10 (amended). On the render that runs the memoised callback (no
    template is memoised yet), a falsy first argument makes the call
    throw the TypeError before any id is generated and any atom is
    created; on a later render the memoised template is returned
    whatever the argument. With an array [[k, ...rest]] as first
    argument, the template created has key [k], and on every render the
    params passed on are [rest]. *)
Theorem useAtom_spec (Scope_App : UseAtom.Arg) (gen : nat -> string)
    (w : UseAtom.World) (paramA maybeFactory : UseAtom.Arg) :
  (UseAtom.memo w = None -> UseAtom.ToBoolean paramA = false ->
   UseAtom.useAtom Scope_App gen w paramA maybeFactory =
     (Throw (UseAtom.TypeError "Zedux - All atoms must have a key"), w)) /\
  (forall cached, UseAtom.memo w = Some cached ->
   exists ps,
     UseAtom.useAtom Scope_App gen w paramA maybeFactory =
       (Normal {| UseAtom.call_atom := cached; UseAtom.call_params := ps |},
        w)) /\
  (forall k rest, paramA = UseAtom.AArray (k :: rest) ->
   exists atom w',
     UseAtom.useAtom Scope_App gen w paramA maybeFactory =
       (Normal {| UseAtom.call_atom := atom;
                  UseAtom.call_params := Some rest |}, w') /\
     (UseAtom.memo w = None ->
      UseAtom.key atom = k /\
      UseAtom.memo w' = Some atom /\
      exists options,
        UseAtom.createAtomCalls w' =
          (UseAtom.createAtomCalls w ++ [(atom, options)])%list)).
Proof.
  split; [|split].
  - intros Hm Hf. unfold UseAtom.useAtom, UseAtom.useMemo0, UseAtom.makeAtom.
    rewrite Hm, Hf. reflexivity.
  - intros cached Hm. unfold UseAtom.useAtom, UseAtom.useMemo0.
    rewrite Hm. eexists. reflexivity.
  - intros k rest ->. unfold UseAtom.useAtom, UseAtom.useMemo0.
    destruct (UseAtom.memo w) as [cached|] eqn:Hm.
    + eexists _, _. split; [reflexivity|]. discriminate.
    + simpl. eexists _, _. split; [reflexivity|]. intros _. simpl.
      split; [reflexivity|]. split; [reflexivity|]. eexists. reflexivity.
Qed.

Lemma useAtom_spec_witness :
  UseAtom.useAtom (UseAtom.AString "App") (fun _ => "id") UseAtom.mount
    (UseAtom.AString "") UseAtom.AUndefined =
  (Throw (UseAtom.TypeError "Zedux - All atoms must have a key"),
   UseAtom.mount).
Proof.
  apply (useAtom_spec (UseAtom.AString "App") (fun _ => "id") UseAtom.mount
           (UseAtom.AString "") UseAtom.AUndefined); reflexivity.
Defined.

(** ** The Graph *)

Section Graph.

Import Engine.

Lemma elem_of_dependentEdges (e : Ecosystem) (i f : string) (ed : Edge) :
  (f, ed) ∈ dependentEdges e i <-> edges e !! (f, i) = Some ed.
Proof.
  unfold dependentEdges. rewrite list_elem_of_omap. split.
  - intros ([[f' t'] ed'] & Hin & Hsome). simpl in Hsome.
    case_bool_decide; [|discriminate]. injection Hsome as -> ->. subst t'.
    by apply elem_of_map_to_list in Hin.
  - intros H. exists ((f, i), ed). split; [by apply elem_of_map_to_list|].
    simpl. by rewrite bool_decide_eq_true_2.
Qed.

Lemma elem_of_dependencyIds (e : Ecosystem) (i t : string) :
  t ∈ dependencyIds e i <-> exists ed, edges e !! (i, t) = Some ed.
Proof.
  unfold dependencyIds. rewrite list_elem_of_omap. split.
  - intros ([[f' t'] ed'] & Hin & Hsome). simpl in Hsome.
    case_bool_decide; [|discriminate]. injection Hsome as ->. subst f'.
    exists ed'. by apply elem_of_map_to_list in Hin.
  - intros [ed H]. exists ((i, t), ed). split; [by apply elem_of_map_to_list|].
    simpl. by rewrite bool_decide_eq_true_2.
Qed.

Lemma hasDependents_true (e : Ecosystem) (i : string) :
  hasDependents e i = true <-> exists f ed, edges e !! (f, i) = Some ed.
Proof.
  unfold hasDependents. split.
  - destruct (dependentEdges e i) as [|[f ed] l] eqn:H; [discriminate|].
    intros _. exists f, ed. apply elem_of_dependentEdges. rewrite H. left.
  - intros (f & ed & H). apply elem_of_dependentEdges in H.
    destruct (dependentEdges e i); [by apply elem_of_nil in H|done].
Qed.

Lemma hasDependents_false (e : Ecosystem) (i : string) :
  hasDependents e i = false <-> forall f, edges e !! (f, i) = None.
Proof.
  split.
  - intros H f. destruct (edges e !! (f, i)) as [ed|] eqn:Hed; [|done].
    assert (hasDependents e i = true) by (apply hasDependents_true; eauto).
    congruence.
  - intros H. destruct (hasDependents e i) eqn:Hd; [|done].
    apply hasDependents_true in Hd as (f & ed & Hed). by rewrite H in Hed.
Qed.

Lemma only_dependent (e : Ecosystem) (fromId toId : string) :
  (dependentEdges e toId).*1 = [fromId] ->
  (exists ed, edges e !! (fromId, toId) = Some ed) /\
  (forall f, f ≠ fromId -> edges e !! (f, toId) = None).
Proof.
  intros H.
  destruct (dependentEdges e toId) as [|[f0 ed0] [|x l]] eqn:Hd;
    simpl in H; try discriminate H.
  injection H as ->. split.
  - exists ed0. apply elem_of_dependentEdges. rewrite Hd. left.
  - intros f Hne. destruct (edges e !! (f, toId)) as [ed|] eqn:Hed; [|done].
    apply elem_of_dependentEdges in Hed. rewrite Hd in Hed.
    apply list_elem_of_singleton in Hed. congruence.
Qed.

(** *** Steps of the Graph *)

Lemma sameNode_refl nd : sameNode nd nd.
Proof. by destruct nd. Qed.

Lemma sameNode_trans a b c : sameNode a b -> sameNode b c -> sameNode a c.
Proof.
  destruct a, b, c; simpl; try tauto.
  - intros (? & ? & ? & ?) (? & ? & ? & ?).
    split; [congruence|]. split; [congruence|]. split; congruence.
  - intros (? & ?) (? & ?). split; congruence.
Qed.

Lemma basicStep_refl e : basicStep e e.
Proof.
  split; try done.
  - exists []. by rewrite app_nil_r.
  - exists []. split; [|constructor]. intros j. rewrite elem_of_nil. tauto.
  - intros i nd H. exists nd. split; [done|apply sameNode_refl].
Qed.

Lemma basicStep_trans a b c : basicStep a b -> basicStep b c -> basicStep a c.
Proof.
  intros [O1 N1 S1 A1 (ev1 & L1 & F1) (j1 & Q1 & J1) M1]
         [O2 N2 S2 A2 (ev2 & L2 & F2) (j2 & Q2 & J2) M2].
  split; try congruence.
  - exists (ev1 ++ ev2)%list. split.
    + rewrite L2, L1. by rewrite <- app_assoc.
    + by apply Forall_app.
  - exists (j1 ++ j2)%list. split.
    + intros j. rewrite Q2, Q1, elem_of_app. tauto.
    + by apply Forall_app.
  - intros i nd2 H. destruct (M2 _ _ H) as (nd1 & H1 & T1).
    destruct (M1 _ _ H1) as (nd0 & H0 & T0).
    exists nd0. split; [done|]. by eapply sameNode_trans.
Qed.

(** A step that only touches what [basicStep] does not look at. *)
Lemma basicStep_frame e e' :
  overridesById e' = overridesById e -> now e' = now e ->
  injectionStack e' = injectionStack e -> nextSerial e' = nextSerial e ->
  log e' = log e -> _scheduler e' = _scheduler e -> n e' = n e ->
  basicStep e e'.
Proof.
  intros HO HN HS HA HL HQ HM. split; try done.
  - exists []. by rewrite app_nil_r.
  - exists []. split; [|constructor]. intros j.
    rewrite HQ, elem_of_nil. tauto.
  - intros i nd H. rewrite HM in H. exists nd.
    split; [done|apply sameNode_refl].
Qed.

Lemma basicStep_emit e ev : harmless ev -> basicStep e (emit ev e).
Proof.
  intros Hev. split; try done.
  - exists [ev]. split; [done|]. by constructor.
  - exists []. split; [|constructor]. intros j. rewrite elem_of_nil. tauto.
  - intros i nd H. exists nd. split; [done|apply sameNode_refl].
Qed.

Lemma basicStep_withEdges e m : basicStep e (withEdges e m).
Proof. by apply basicStep_frame. Qed.

Lemma basicStep_alter e i (f : Node -> Node) :
  (forall nd, sameNode nd (f nd)) ->
  basicStep e (withNodes e (alter f i (n e))).
Proof.
  intros Hf. split; try done.
  - exists []. by rewrite app_nil_r.
  - exists []. split; [|constructor]. intros j. rewrite elem_of_nil. tauto.
  - intros k nd' H. simpl in H. rewrite lookup_alter in H.
    case_decide as Hk.
    + subst k. destruct (n e !! i) as [nd|] eqn:Hn; simpl in H;
        [|discriminate].
      injection H as <-. exists nd. split; [done|apply Hf].
    + exists nd'. split; [done|apply sameNode_refl].
Qed.

Lemma basicStep_updateInstance e i f :
  (forall a, template (f a) = template a /\
             templateKey (f a) = templateKey a /\
             serial (f a) = serial a /\ id (f a) = id a) ->
  basicStep e (updateInstance e i f).
Proof.
  intros Hf. apply basicStep_alter. intros [a|x]; simpl; [apply Hf|done].
Qed.

Lemma basicStep_delete e i : basicStep e (withNodes e (delete i (n e))).
Proof.
  split; try done.
  - exists []. by rewrite app_nil_r.
  - exists []. split; [|constructor]. intros j. rewrite elem_of_nil. tauto.
  - intros k nd H. simpl in H. apply lookup_delete_Some in H as [_ H].
    exists nd. split; [done|apply sameNode_refl].
Qed.

Lemma elem_of_enqueue (x j : Job) (q : list Job) :
  x ∈ enqueue j q <-> x = j \/ x ∈ q.
Proof.
  induction q as [|y q IH]; simpl.
  - rewrite list_elem_of_singleton, elem_of_nil. tauto.
  - destruct (deliveredAfter y j).
    + by rewrite elem_of_cons.
    + rewrite !elem_of_cons, IH. tauto.
Qed.

Lemma elem_of_foldl_enqueue (x : Job) (js q : list Job) :
  x ∈ foldl (fun q j => enqueue j q) q js <-> x ∈ q \/ x ∈ js.
Proof.
  revert q. induction js as [|j js IH]; intros q; simpl.
  - rewrite elem_of_nil. tauto.
  - rewrite IH, elem_of_enqueue, elem_of_cons. tauto.
Qed.

Lemma jobFor_ok e i r d j : jobFor e i r d = Some j -> okJob j.
Proof.
  unfold jobFor, okJob. destruct r.
  - destruct (hasFlag _ _) eqn:Hf; [discriminate|]. intros [= <-]. done.
  - intros [= <-]. discriminate.
  - intros [= <-]. discriminate.
Qed.

Lemma basicStep_scheduleNotify e i r : basicStep e (scheduleNotify e i r).
Proof.
  split; try done.
  - exists []. by rewrite app_nil_r.
  - exists (omap (jobFor e i r) (dependentEdges e i)). split.
    + intros j. simpl. apply elem_of_foldl_enqueue.
    + apply Forall_forall. intros j Hj.
      apply list_elem_of_omap in Hj as (d & _ & Hd). by eapply jobFor_ok.
  - intros k nd H. exists nd. split; [done|apply sameNode_refl].
Qed.

Lemma setTtlTimer_same t a :
  template (setTtlTimer t a) = template a /\
  templateKey (setTtlTimer t a) = templateKey a /\
  serial (setTtlTimer t a) = serial a /\ id (setTtlTimer t a) = id a.
Proof. done. Qed.

Lemma basicStep_addEdge e f t fl cb op : basicStep e (addEdge e f t fl cb op).
Proof.
  unfold addEdge. destruct (edges e !! (f, t)).
  - apply basicStep_withEdges.
  - destruct (_ && _); [|apply basicStep_refl].
    eapply basicStep_trans; [|by apply basicStep_emit].
    eapply basicStep_trans; [|apply basicStep_withEdges].
    apply basicStep_updateInstance, setTtlTimer_same.
Qed.

Lemma basicStep_releaseDependency e d : basicStep e (releaseDependency e d).
Proof.
  unfold releaseDependency. destruct (hasDependents e d); [apply basicStep_refl|].
  destruct (n e !! d) as [[a|x]|]; try apply basicStep_refl.
  destruct (ttl a); [|apply basicStep_refl].
  apply basicStep_updateInstance, setTtlTimer_same.
Qed.

Lemma basicStep_runDestructor e d : basicStep e (runDestructor e d).
Proof.
  unfold runDestructor. destruct (destructorThrows d); by apply basicStep_emit.
Qed.

Lemma basicStep_foldl {A} (f : Ecosystem -> A -> Ecosystem) (l : list A) e :
  (forall e x, basicStep e (f e x)) -> basicStep e (foldl f e l).
Proof.
  intros Hf. revert e. induction l as [|x l IH]; intros e; simpl.
  - apply basicStep_refl.
  - eapply basicStep_trans; [apply Hf|apply IH].
Qed.

Lemma basicStep_destroyNode e i : basicStep e (destroyNode e i).
Proof.
  unfold destroyNode. destruct (n e !! i) as [nd|]; [|apply basicStep_refl].
  eapply basicStep_trans; [|apply basicStep_delete].
  eapply basicStep_trans;
    [|apply basicStep_foldl, basicStep_releaseDependency].
  eapply basicStep_trans; [|apply basicStep_withEdges].
  eapply basicStep_trans; [|apply basicStep_scheduleNotify].
  destruct nd; [|apply basicStep_refl].
  eapply basicStep_trans;
    [|apply basicStep_foldl, basicStep_runDestructor].
  by apply basicStep_emit.
Qed.

Lemma basicStep_removeEdge e f t : basicStep e (removeEdge e f t).
Proof.
  unfold removeEdge. destruct (edges e !! (f, t)); [|apply basicStep_refl].
  set (e1 := emit _ _).
  assert (basicStep e e1) as H1.
  { eapply basicStep_trans; [apply basicStep_withEdges|by apply basicStep_emit]. }
  destruct (hasDependents e1 t); [exact H1|].
  destruct (n e1 !! t) as [[a|x]|]; try exact H1.
  destruct (ttl a) as [[|p]|]; try exact H1.
  - eapply basicStep_trans; [exact H1|apply basicStep_destroyNode].
  - eapply basicStep_trans; [exact H1|].
    apply basicStep_updateInstance, setTtlTimer_same.
Qed.

(** *** The destruction of a node *)

Lemma destroyNode_unregisters e i : n (destroyNode e i) !! i = None.
Proof.
  unfold destroyNode. destruct (n e !! i) eqn:H; [|done].
  simpl. apply lookup_delete_eq.
Qed.

Lemma foldl_frame {A B} (proj : Ecosystem -> B)
    (f : Ecosystem -> A -> Ecosystem) (l : list A) (e : Ecosystem) :
  (forall e x, proj (f e x) = proj e) -> proj (foldl f e l) = proj e.
Proof.
  intros Hf. revert e. induction l as [|x l IH]; intros e; simpl; [done|].
  by rewrite IH, Hf.
Qed.

Lemma edges_releaseDependency e d : edges (releaseDependency e d) = edges e.
Proof. unfold releaseDependency. repeat case_match; reflexivity. Qed.

Lemma edges_runDestructor e d : edges (runDestructor e d) = edges e.
Proof. unfold runDestructor. case_match; reflexivity. Qed.

Lemma destroyNode_edges e i :
  is_Some (n e !! i) ->
  edges (destroyNode e i) =
    filter (fun p : (string * string) * Edge => p.1.1 ≠ i ∧ p.1.2 ≠ i)
      (edges e).
Proof.
  intros [nd Hn]. unfold destroyNode. rewrite Hn. simpl.
  rewrite (foldl_frame edges) by apply edges_releaseDependency. simpl.
  destruct nd; [|done].
  by rewrite (foldl_frame edges) by apply edges_runDestructor.
Qed.

Lemma log_releaseDependency e d : log (releaseDependency e d) = log e.
Proof. unfold releaseDependency. repeat case_match; reflexivity. Qed.

Lemma destroyNode_log e i a :
  n e !! i = Some (AtomInstanceNode a) ->
  In (EvActiveStateChanged i (serial a) Destroyed) (log (destroyNode e i)).
Proof.
  intros Hn. unfold destroyNode. rewrite Hn. simpl.
  rewrite (foldl_frame log) by apply log_releaseDependency. simpl.
  destruct (step_log _ _
              (basicStep_foldl runDestructor (rev (destructors a))
                 (emit (EvActiveStateChanged i (serial a) Destroyed) e)
                 basicStep_runDestructor)) as (evs & -> & _).
  simpl. rewrite !in_app_iff. simpl. tauto.
Qed.

End Graph.

(** ** What the engine preserves *)

Section Preservation.

Import Engine.

Variable R : Ecosystem -> Ecosystem -> Prop.
Hypothesis HR : Preserved R.

Lemma R_emit e ev : harmless ev -> R e (emit ev e).
Proof. intros H. by apply (R_basic R HR), basicStep_emit. Qed.

Lemma runFactory_R gn :
  (forall e t ps a e', gn e t ps = Normal (a, e') -> R e e') ->
  forall fac e self reads dtors out e' rs ds,
    runFactory gn e self fac reads dtors = Normal (out, e', rs, ds) ->
    R e e'.
Proof.
  intros Hgn fac.
  induction fac as [r|err|t ps k IH|t ps k IH|d k IH];
    intros e self reads dtors out e' rs ds H; simpl in H.
  - injection H as <- <- <- <-. apply (R_refl R HR).
  - injection H as <- <- <- <-. apply (R_refl R HR).
  - destruct (gn e t ps) as [[inst e1]|x] eqn:Hg; [|discriminate].
    apply IH in H. eapply (R_trans R HR); [by eapply Hgn|].
    eapply (R_trans R HR); [|exact H].
    apply (R_basic R HR), basicStep_addEdge.
  - destruct (gn e t ps) as [[inst e1]|x] eqn:Hg; [|discriminate].
    apply IH in H. eapply (R_trans R HR); [by eapply Hgn|].
    eapply (R_trans R HR); [|exact H].
    apply (R_basic R HR), basicStep_addEdge.
  - by eapply IH.
Qed.

Lemma getNode_R fuel :
  forall e t ps a e', getNode fuel e t ps = Normal (a, e') -> R e e'.
Proof.
  induction fuel as [|f IH]; intros e t ps a e' H; simpl in H; [discriminate|].
  destruct (_ && _); [discriminate|].
  destruct (n e !! instanceId t ps) as [[a0|x]|] eqn:Hn.
  - destruct (bool_decide _); [discriminate|].
    destruct (bool_decide _); [|discriminate].
    injection H as <- <-. apply (R_refl R HR).
  - discriminate.
  - destruct (runFactory _ _ _ _ _ _) as [[[[[r|err] e2] rs] ds]|x] eqn:Hrun;
      try discriminate.
    injection H as <- <-. apply (runFactory_R _ IH) in Hrun.
    eapply (R_trans R HR); [|by apply R_emit].
    apply (R_complete R HR e (withStack e2 (injectionStack e))).
    eapply (R_trans R HR); [|apply (R_stack R HR)].
    eapply (R_trans R HR); [|exact Hrun].
    eapply (R_trans R HR); [|apply (R_stack R HR)].
    eapply (R_trans R HR); [|by apply R_emit].
    apply (R_register R HR).
Qed.






End Preservation.

Section FlushPreservation.

Import Engine.

Variable R : Ecosystem -> Ecosystem -> Prop.
Hypothesis HR : PreservedByFlush R.


End FlushPreservation.

(** *** The relations that are preserved *)

Section Relations.

Import Engine.

Lemma tableKept_preserved : Preserved tableKept.
Proof.
  split; unfold tableKept.
  - done.
  - intros a b c [? ?] [? ?]. split; congruence.
  - done.
  - intros e e' H. split; [apply (step_overrides _ _ H)|apply (step_now _ _ H)].
  - done.
  - intros e e3 t ps sn r dtors w H. exact H.
  - done.
Qed.

Lemma tableKept_flush : PreservedByFlush tableKept.
Proof. split; [apply tableKept_preserved| |]; by unfold tableKept. Qed.











Lemma wellKeyed_insert e i nd :
  wellKeyed e ->
  match nd with
  | AtomInstanceNode a => id a = i
  | ExternalSubscriberNode x => xid x = i
  end ->
  wellKeyed (withNodes e (<[i := nd]> (n e))).
Proof.
  intros Hw Hnd k nd' Hk. simpl in Hk. rewrite lookup_insert in Hk.
  case_decide.
  - injection Hk as <-. by subst k.
  - by apply Hw.
Qed.

Lemma keysKept_preserved : Preserved keysKept.
Proof.
  split; unfold keysKept.
  - done.
  - intros a b c Hab Hbc H. by apply Hbc, Hab.
  - done.
  - intros e e' Hs Hw i nd' Hi.
    destruct (step_nodes _ _ Hs _ _ Hi) as (nd & Hnd & Hsame).
    specialize (Hw _ _ Hnd).
    destruct nd as [a|x], nd' as [a'|x']; simpl in Hsame; try done.
    + destruct Hsame as (_ & _ & _ & Hid). congruence.
    + destruct Hsame as (_ & Hid). congruence.
  - intros e t ps H. by apply (wellKeyed_insert (allocSerial e).2).
  - intros e e3 t ps sn r dtors w H3 H. apply wellKeyed_insert; [by apply H3|done].
  - intros e i a r dtors w Ha H. apply wellKeyed_insert; [done|].
    simpl. by apply (H _ _ Ha).
Qed.


End Relations.

(** ** Params and their hash *)

Section Hashing.

Import Engine.





End Hashing.

(** ** [getNode] *)

Section GetNode.

Import Engine.

Lemma getNode_registered fuel e t ps a e' :
  getNode fuel e t ps = Normal (a, e') ->
  n e' !! instanceId t ps = Some (AtomInstanceNode a) /\
  templateKey a = key t /\
  injectionStack e' = injectionStack e.
Proof.
  destruct fuel as [|f]; simpl; [discriminate|].
  destruct (_ && _); [discriminate|].
  destruct (n e !! instanceId t ps) as [[a0|x]|] eqn:Hn.
  - case_bool_decide as Hs; [discriminate|].
    case_bool_decide as Hk; [|discriminate].
    by intros [= <- <-].
  - discriminate.
  - destruct (runFactory _ _ _ _ _ _) as [[[[[r|err] e2] rs] ds]|x] eqn:Hrun;
      try discriminate.
    intros [= <- <-]. simpl. by rewrite lookup_insert_eq.
Qed.

End GetNode.

Section Uniqueness.

Import Engine.




End Uniqueness.

(** ** The flush *)

Section Flush.

Import Engine.















End Flush.

(** ** Replacing overrides *)

Section Overrides.

Import Engine.

















End Overrides.

Section OverrideReplacement.

Import Engine.




End OverrideReplacement.

(** ** The invariants of the reachable states *)

Section Reachable.

Import Engine.
















Lemma basicStep_setObserved e observerId o :
  basicStep e (Hooks.setObserved e observerId o).
Proof.
  unfold Hooks.setObserved. apply basicStep_alter. by intros [a|x].
Qed.









End Reachable.

(** ** Static edges *)

Section StaticEdges.

Import Engine.

Lemma hasFlag_lor (old fl bit : Z) :
  hasFlag fl bit = true -> hasFlag (Z.lor old fl) bit = true.
Proof.
  unfold hasFlag. rewrite !negb_true_iff, !Z.eqb_neq.
  intros H. rewrite Z.land_lor_distr_l. intros H0.
  apply Z.lor_eq_0_iff in H0 as [_ H0]. done.
Qed.

Lemma registered_true e i : registered e i = true <-> is_Some (n e !! i).
Proof. unfold registered. apply bool_decide_eq_true. Qed.

Lemma addEdge_lookup e f t fl cb op :
  is_Some (n e !! f) -> is_Some (n e !! t) ->
  exists ed, edges (addEdge e f t fl cb op) !! (f, t) = Some ed /\
             (forall bit, hasFlag fl bit = true ->
                          hasFlag (flags ed) bit = true) /\
             (edges e !! (f, t) = None -> flags ed = fl).
Proof.
  intros Hf Ht. unfold addEdge.
  destruct (edges e !! (f, t)) as [old|] eqn:He.
  - eexists. split; [apply lookup_insert_eq|]. simpl.
    split; [intros bit; apply hasFlag_lor|discriminate].
  - apply registered_true in Hf, Ht. rewrite Hf, Ht. simpl.
    eexists. split; [apply lookup_insert_eq|]. simpl. done.
Qed.



Lemma addEdge_closure_new e c :
  Hooks.nodeDestroyed e (Hooks.c_observerId c) (Hooks.c_node c) = false ->
  Hooks.nodeObserves e (Hooks.c_observerId c) (Hooks.c_node c)
    (Hooks.c_instance c) = false ->
  Hooks.addEdge_closure e c =
    (Hooks.node_u e (Hooks.c_observerId c) (Hooks.c_instance c)
       (Hooks.configOperation (Hooks.c_config c))
       (Hooks.edgeFlags (Hooks.c_config c)), c).
Proof.
  intros Hd Ho. unfold Hooks.addEdge_closure. by rewrite Hd, Ho.
Qed.

Lemma useAtomInstance_edge fuel e0 observerId mounted atom ps cfg inst e1 :
  wellKeyed e0 ->
  getNode fuel e0 atom ps = Normal (inst, e1) ->
  (forall a, n e1 !! observerId ≠ Some (AtomInstanceNode a)) ->
  (forall x, n e1 !! observerId = Some (ExternalSubscriberNode x) ->
             observed x ≠ Some (id inst, serial inst)) ->
  exists ed,
    edges (Hooks.ecosystem
             (Hooks.useAtomInstance fuel e0 observerId mounted atom ps
                (Some cfg))) !! (observerId, id inst) = Some ed /\
    (forall bit, hasFlag (Hooks.edgeFlags cfg) bit = true ->
                 hasFlag (flags ed) bit = true) /\
    (edges e1 !! (observerId, id inst) = None ->
     flags ed = Hooks.edgeFlags cfg).
Proof.
  intros Hw Hg Hatom Hobs.
  pose proof (getNode_R _ keysKept_preserved _ _ _ _ _ _ Hg Hw) as Hw1.
  destruct (getNode_registered _ _ _ _ _ _ Hg) as (Hreg & _ & _).
  pose proof (Hw1 _ _ Hreg) as Hid. simpl in Hid.
  rewrite <- Hid in Hreg.
  unfold Hooks.useAtomInstance. rewrite Hg.
  destruct (n e1 !! observerId) as [[a|x]|] eqn:Hn.
  - by destruct (Hatom a).
  - cbv beta iota zeta. rewrite addEdge_closure_new.
    + cbn [Hooks.ecosystem Hooks.c_observerId Hooks.c_instance
             Hooks.c_config].
      apply (addEdge_lookup e1); [by rewrite Hn|by rewrite Hreg].
    + unfold Hooks.nodeDestroyed. cbn [Hooks.c_observerId Hooks.c_node].
      by rewrite Hn, Nat.eqb_refl.
    + unfold Hooks.nodeObserves.
      cbn [Hooks.c_observerId Hooks.c_node Hooks.c_instance].
      rewrite Hn, Nat.eqb_refl.
      by rewrite bool_decide_eq_false_2 by (by apply Hobs).
  - assert (observerId ≠ id inst) as Hne by congruence.
    unfold Hooks.newExternalNode, allocSerial. cbv beta iota zeta.
    rewrite addEdge_closure_new.
    + cbn [Hooks.ecosystem Hooks.c_observerId Hooks.c_instance
             Hooks.c_config].
      match goal with
      | |- context [Hooks.node_u ?e2 _ _ _ _] =>
          apply (addEdge_lookup e2)
      end.
      * simpl. by rewrite lookup_insert_eq.
      * simpl. rewrite lookup_insert_ne by done. by rewrite Hreg.
    + unfold Hooks.nodeDestroyed. cbn [Hooks.c_observerId Hooks.c_node].
      simpl. by rewrite lookup_insert_eq, Nat.eqb_refl.
    + unfold Hooks.nodeObserves.
      cbn [Hooks.c_observerId Hooks.c_node Hooks.c_instance].
      simpl. by rewrite lookup_insert_eq, Nat.eqb_refl.
Qed.


End StaticEdges.

(** ** Suspense *)

Section Suspense.

Import Engine.


End Suspense.

(** ** Edges: adding twice, removing the last *)

Section Edges.

Import Engine.

(** C5. [addEdge] on a pair that already has an edge keeps it the one
    edge of the pair: the set of edges is the same, the edge has the
    flags of the old one ORed with the new flags, the operation and the
    notify callback of the old one, not the ones supplied; the other
    edges and the registry are untouched. *)
Theorem addEdge_idempotent (e : Ecosystem) (fromId toId : string)
    (old : Edge) (fl : Z) (cb : option Callback) (op : string) :
  edges e !! (fromId, toId) = Some old ->
  edges (addEdge e fromId toId fl cb op) !! (fromId, toId) =
    Some {| flags := Z.lor (flags old) fl;
            operation := operation old;
            notify := notify old |} /\
  dom (edges (addEdge e fromId toId fl cb op)) = dom (edges e) /\
  (forall p, p ≠ (fromId, toId) ->
             edges (addEdge e fromId toId fl cb op) !! p = edges e !! p) /\
  n (addEdge e fromId toId fl cb op) = n e.
Proof.
  intros Hold. unfold addEdge. rewrite Hold. simpl.
  split; [apply lookup_insert_eq|].
  split.
  { apply dom_insert_lookup_L. by exists old. }
  split; [|done].
  intros p Hp. by rewrite lookup_insert_ne.
Qed.

Lemma now_removeEdge e f t : now (removeEdge e f t) = now e.
Proof. apply (step_now _ _ (basicStep_removeEdge e f t)). Qed.

(** C6. When [removeEdge] removes the edge of the only dependent of an
    atom instance, no time passes, and:
    - if the ttl of the instance is 0, the instance is destroyed in the
      same step: it has left the registry, its transition to Destroyed
      is logged and no edge touches it;
    - otherwise the instance is eligible for ttl-based destruction: it
      is registered without dependents, with its destruction scheduled
      at now + ttl when the ttl is finite, and at that time a [destroy]
      that is not forced destroys it. *)
Theorem removeEdge_last_dependent (e : Ecosystem) (fromId toId : string)
    (a : AtomInstance) :
  (dependentEdges e toId).*1 = [fromId] ->
  n e !! toId = Some (AtomInstanceNode a) ->
  now (removeEdge e fromId toId) = now e /\
  (ttl a = Some 0%N ->
   n (removeEdge e fromId toId) !! toId = None /\
   In (EvActiveStateChanged toId (serial a) Destroyed)
      (log (removeEdge e fromId toId)) /\
   (forall p ed, edges (removeEdge e fromId toId) !! p = Some ed ->
                 p.1 ≠ toId /\ p.2 ≠ toId)) /\
  (ttl a ≠ Some 0%N ->
   ttlEligible (removeEdge e fromId toId) toId /\
   (forall t, ttl a = Some t ->
      (destroy (withNow (removeEdge e fromId toId) (now e + t)%N)
         toId false).1 = true)).
Proof.
  intros Honly Hn.
  destruct (only_dependent _ _ _ Honly) as [[ed Hed] Hothers].
  split; [apply now_removeEdge|].
  set (e1 := emit (EvEdgeRemoved fromId toId)
               (withEdges e (delete (fromId, toId) (edges e)))).
  assert (hasDependents e1 toId = false) as Hnone.
  { apply hasDependents_false. intros f. simpl.
    destruct (decide (f = fromId)) as [->|Hne].
    - apply lookup_delete_eq.
    - rewrite lookup_delete_ne by congruence. by apply Hothers. }
  assert (n e1 !! toId = Some (AtomInstanceNode a)) as Hn1 by done.
  unfold removeEdge. rewrite Hed. fold e1. rewrite Hnone, Hn1.
  split.
  - intros ->. split; [apply destroyNode_unregisters|].
    split; [by apply destroyNode_log|].
    intros p ed'. rewrite destroyNode_edges by eauto.
    intros H. by apply map_lookup_filter_Some in H as [_ H].
  - intros Httl.
    destruct (ttl a) as [[|t]|] eqn:Ht; [done| |].
    + split.
      * exists (setTtlTimer (Some (now e1 + N.pos t)%N) a). split.
        { simpl. rewrite lookup_alter_eq, Hn. reflexivity. }
        split; [exact Hnone|].
        simpl. intros t'. rewrite Ht. intros [= <-]. reflexivity.
      * intros t' [= <-]. unfold destroy. simpl.
        rewrite lookup_alter_eq, Hn. simpl.
        unfold ttlSaysSo. simpl.
        change (hasDependents _ toId) with (hasDependents e1 toId).
        rewrite Hnone, Ht. simpl. rewrite N.leb_refl. reflexivity.
    + split; [|discriminate].
      exists a. split; [done|]. split; [exact Hnone|].
      rewrite Ht. discriminate.
Qed.

End Edges.

(** ** The claims on concrete ecosystems *)

Section Witnesses.

Import Engine.




Lemma addEdge_idempotent_witness :
  exists ed,
    edges (addEdge (Scenarios.mounted empty Scenarios.count)
             "component" "count-[]" Utils.Explicit None "again")
      !! ("component", "count-[]") = Some ed /\
    flags ed = 7%Z /\ operation ed = "useAtomInstance".
Proof.
  assert (exists old,
            edges (Scenarios.mounted empty Scenarios.count)
              !! ("component", "count-[]") = Some old /\
            flags old = 6%Z /\ operation old = "useAtomInstance")
    as (old & He & Hf & Ho).
  { eexists. split; [vm_compute; reflexivity|]. split; reflexivity. }
  eexists. split.
  - exact (proj1 (addEdge_idempotent _ _ _ old Utils.Explicit None "again" He)).
  - simpl. rewrite Hf, Ho. split; reflexivity.
Defined.

Lemma removeEdge_last_dependent_witness :
  n (removeEdge (Scenarios.mounted empty Scenarios.session)
       "component" "session-[]") !! "session-[]" = None.
Proof.
  assert (exists a,
            n (Scenarios.mounted empty Scenarios.session) !! "session-[]" =
              Some (AtomInstanceNode a) /\ ttl a = Some 0%N)
    as (a & Hn & Ht).
  { eexists. split; [vm_compute; reflexivity|reflexivity]. }
  assert ((dependentEdges (Scenarios.mounted empty Scenarios.session)
             "session-[]").*1 = ["component"]) as Hd.
  { vm_compute. reflexivity. }
  exact (proj1 (proj1 (proj2 (removeEdge_last_dependent _ _ _ a Hd Hn)) Ht)).
Defined.


End Witnesses.

(** ** Further properties of the sources *)

Section DetailedTypeof.


End DetailedTypeof.

Section HookEdges.

Import Engine.

(** The flags of the edge [useAtomInstance] asks for: [External] and
    [Static] (6) unless [subscribe] is true, and then [External] alone
    (2); never [Explicit]. *)
Theorem edgeFlags_spec (cfg : Hooks.ZeduxHookConfig) :
  (Hooks.subscribe cfg = Some true -> Hooks.edgeFlags cfg = 2%Z) /\
  (Hooks.subscribe cfg <> Some true -> Hooks.edgeFlags cfg = 6%Z) /\
  hasFlag (Hooks.edgeFlags cfg) Utils.External = true /\
  hasFlag (Hooks.edgeFlags cfg) Utils.Explicit = false /\
  hasFlag (Hooks.edgeFlags cfg) Utils.Static =
    negb (Hooks.truthy (Hooks.subscribe cfg)).
Proof.
  unfold Hooks.edgeFlags.
  destruct (Hooks.subscribe cfg) as [[]|]; simpl; repeat split; congruence.
Qed.

Lemma edgeFlags_spec_witness :
  Hooks.edgeFlags Hooks.defaultConfig = 6%Z.
Proof.
  apply (edgeFlags_spec Hooks.defaultConfig). discriminate.
Defined.

Lemma n_setObserved_lookup e obs o x :
  n e !! obs = Some (ExternalSubscriberNode x) ->
  n (Hooks.setObserved e obs o) !! obs =
    Some (ExternalSubscriberNode
            {| xid := xid x; xserial := xserial x; xnotify := xnotify x;
               observed := o |}).
Proof.
  intros H. unfold Hooks.setObserved. simpl.
  by rewrite lookup_alter_eq, H.
Qed.

Lemma addEdge_external e f t fl cb op i x :
  n e !! i = Some (ExternalSubscriberNode x) ->
  n (addEdge e f t fl cb op) !! i = Some (ExternalSubscriberNode x).
Proof.
  intros H. unfold addEdge.
  destruct (edges e !! (f, t)); [done|].
  destruct (registered e f && registered e t); [|done].
  simpl. destruct (decide (t = i)) as [->|Hne].
  - by rewrite lookup_alter_eq, H.
  - by rewrite lookup_alter_ne.
Qed.

Lemma node_u_observes e obs inst op fl x :
  n e !! obs = Some (ExternalSubscriberNode x) ->
  Hooks.nodeDestroyed (Hooks.node_u e obs inst op fl) obs (xserial x) = false /\
  Hooks.nodeObserves (Hooks.node_u e obs inst op fl) obs (xserial x) inst
    = true.
Proof.
  intros H. unfold Hooks.node_u, Hooks.nodeDestroyed, Hooks.nodeObserves.
  rewrite (n_setObserved_lookup _ _ _ x) by by apply addEdge_external.
  simpl. rewrite Nat.eqb_refl. simpl. split; [done|].
  by apply bool_decide_eq_true_2.
Qed.

Lemma nodeDestroyed_false e obs sn :
  Hooks.nodeDestroyed e obs sn = false ->
  exists x, n e !! obs = Some (ExternalSubscriberNode x) /\ xserial x = sn.
Proof.
  unfold Hooks.nodeDestroyed.
  destruct (n e !! obs) as [[a|x]|]; try discriminate.
  intros H. exists x. split; [done|].
  apply Nat.eqb_eq. by destruct (xserial x =? sn)%nat.
Qed.

Lemma addEdge_closure_settled (e : Ecosystem) (c : Hooks.Closure) :
  Hooks.nodeDestroyed (Hooks.addEdge_closure e c).1
    (Hooks.c_observerId (Hooks.addEdge_closure e c).2)
    (Hooks.c_node (Hooks.addEdge_closure e c).2) = false /\
  Hooks.nodeObserves (Hooks.addEdge_closure e c).1
    (Hooks.c_observerId (Hooks.addEdge_closure e c).2)
    (Hooks.c_node (Hooks.addEdge_closure e c).2)
    (Hooks.c_instance (Hooks.addEdge_closure e c).2) = true.
Proof.
  unfold Hooks.addEdge_closure.
  destruct (Hooks.nodeDestroyed e (Hooks.c_observerId c) (Hooks.c_node c))
    eqn:Hdead.
  - unfold Hooks.newExternalNode. cbn [allocSerial].
    cbv beta iota zeta.
    set (e1 := withNodes _ _).
    assert (n e1 !! Hooks.c_observerId c =
            Some (ExternalSubscriberNode
                    {| xid := Hooks.c_observerId c;
                       xserial := nextSerial e;
                       xnotify := Hooks.renderCallback (Hooks.c_observerId c);
                       observed := None |})) as Hn.
    { subst e1. simpl. apply lookup_insert_eq. }
    assert (Hooks.nodeObserves e1 (Hooks.c_observerId c) (nextSerial e)
              (Hooks.c_instance c) = false) as Hno.
    { unfold Hooks.nodeObserves. rewrite Hn. simpl.
      by rewrite andb_false_r. }
    cbn [Hooks.withNode Hooks.c_observerId Hooks.c_node Hooks.c_instance
         Hooks.c_config].
    rewrite Hno. cbn [fst snd Hooks.c_observerId Hooks.c_node
                      Hooks.c_instance].
    apply (node_u_observes e1 _ _ _ _ _ Hn).
  - destruct (nodeDestroyed_false _ _ _ Hdead) as (x & Hn & Hx).
    destruct (Hooks.nodeObserves e (Hooks.c_observerId c) (Hooks.c_node c)
                (Hooks.c_instance c)) eqn:Hobs.
    + simpl. by rewrite Hdead, Hobs.
    + cbn [fst snd]. rewrite <- Hx.
      apply (node_u_observes e _ _ _ _ _ Hn).
Qed.

Lemma addEdge_closure_twice (e : Ecosystem) (c : Hooks.Closure) :
  Hooks.addEdge_closure (Hooks.addEdge_closure e c).1
    (Hooks.addEdge_closure e c).2 = Hooks.addEdge_closure e c.
Proof.
  destruct (addEdge_closure_settled e c) as [Hd Ho].
  destruct (Hooks.addEdge_closure e c) as [e1 c1]. cbn [fst snd] in *.
  unfold Hooks.addEdge_closure. by rewrite Hd, Ho.
Qed.

(** The local [addEdge] of [useAtomInstance] is idempotent, as the
    comment at its call says: after it has run, the variable [node]
    holds the registered node of the component, the node observes the
    instance, and a second run changes neither the ecosystem nor the
    closure. *)
Theorem addEdge_closure_idempotent (e : Ecosystem) (c : Hooks.Closure) :
  Hooks.nodeDestroyed (Hooks.addEdge_closure e c).1
    (Hooks.c_observerId (Hooks.addEdge_closure e c).2)
    (Hooks.c_node (Hooks.addEdge_closure e c).2) = false /\
  Hooks.nodeObserves (Hooks.addEdge_closure e c).1
    (Hooks.c_observerId (Hooks.addEdge_closure e c).2)
    (Hooks.c_node (Hooks.addEdge_closure e c).2)
    (Hooks.c_instance (Hooks.addEdge_closure e c).2) = true /\
  Hooks.addEdge_closure (Hooks.addEdge_closure e c).1
    (Hooks.addEdge_closure e c).2 = Hooks.addEdge_closure e c.
Proof.
  destruct (addEdge_closure_settled e c) as [Hd Ho].
  split; [exact Hd|]. split; [exact Ho|]. apply addEdge_closure_twice.
Qed.

(** Hence the effect of a render that nothing has disturbed adds no
    edge: run on the state and the closure the local [addEdge] left, it
    leaves the edges and the registry as they are, and sets [render.m]. *)
Theorem useAtomInstance_effect_noop (e : Ecosystem) (c : Hooks.Closure) :
  edges (Hooks.useAtomInstance_effect (Hooks.addEdge_closure e c).1
           (Hooks.addEdge_closure e c).2).1.1 =
    edges (Hooks.addEdge_closure e c).1 /\
  n (Hooks.useAtomInstance_effect (Hooks.addEdge_closure e c).1
       (Hooks.addEdge_closure e c).2).1.1 =
    n (Hooks.addEdge_closure e c).1 /\
  Hooks.c_mounted
    (Hooks.useAtomInstance_effect (Hooks.addEdge_closure e c).1
       (Hooks.addEdge_closure e c).2).1.2 = true.
Proof.
  unfold Hooks.useAtomInstance_effect.
  rewrite addEdge_closure_twice.
  destruct (Hooks.addEdge_closure e c) as [e1 c1]. cbn [fst snd].
  by destruct (_ || _).
Qed.

Lemma basicStep_node_u e obs inst op fl :
  basicStep e (Hooks.node_u e obs inst op fl).
Proof.
  unfold Hooks.node_u.
  eapply basicStep_trans; [apply basicStep_addEdge|].
  apply basicStep_setObserved.
Qed.

Lemma atoms_basicStep e e' i a' :
  basicStep e e' -> n e' !! i = Some (AtomInstanceNode a') ->
  exists a, n e !! i = Some (AtomInstanceNode a) /\ serial a' = serial a.
Proof.
  intros Hs Hn. destruct (step_nodes _ _ Hs _ _ Hn) as ([a|x] & Hn0 & Hsame).
  - exists a. split; [done|]. by destruct Hsame as (_ & _ & ? & _).
  - destruct Hsame.
Qed.

Lemma atoms_newExternalNode e obs i a' :
  n (Hooks.newExternalNode e obs).2 !! i = Some (AtomInstanceNode a') ->
  n e !! i = Some (AtomInstanceNode a').
Proof.
  unfold Hooks.newExternalNode. simpl.
  destruct (decide (obs = i)) as [->|Hne].
  - rewrite lookup_insert_eq. discriminate.
  - by rewrite lookup_insert_ne.
Qed.

Lemma atoms_addEdge_closure e c i a' :
  n (Hooks.addEdge_closure e c).1 !! i = Some (AtomInstanceNode a') ->
  exists a, n e !! i = Some (AtomInstanceNode a) /\ serial a' = serial a.
Proof.
  unfold Hooks.addEdge_closure.
  destruct (Hooks.nodeDestroyed _ _ _).
  - destruct (Hooks.newExternalNode e (Hooks.c_observerId c)) as [sn e1]
      eqn:Hnew.
    assert (e1 = (Hooks.newExternalNode e (Hooks.c_observerId c)).2) as He1
      by by rewrite Hnew.
    destruct (Hooks.nodeObserves _ _ _ _); cbn [fst]; intros Hn.
    + exists a'. split; [|done]. subst e1.
      by apply atoms_newExternalNode in Hn.
    + destruct (atoms_basicStep _ _ _ _ (basicStep_node_u _ _ _ _ _) Hn)
        as (a & Ha & Hs).
      exists a. split; [|done]. subst e1.
      by apply atoms_newExternalNode in Ha.
  - destruct (Hooks.nodeObserves _ _ _ _); cbn [fst]; intros Hn.
    + by exists a'.
    + apply (atoms_basicStep _ _ _ _ (basicStep_node_u _ _ _ _ _) Hn).
Qed.

Lemma addEdge_closure_instance e c :
  Hooks.c_instance (Hooks.addEdge_closure e c).2 = Hooks.c_instance c /\
  Hooks.c_observerId (Hooks.addEdge_closure e c).2 = Hooks.c_observerId c /\
  Hooks.c_renderedValue (Hooks.addEdge_closure e c).2 =
    Hooks.c_renderedValue c.
Proof.
  unfold Hooks.addEdge_closure.
  destruct (Hooks.nodeDestroyed _ _ _).
  - destruct (Hooks.newExternalNode e (Hooks.c_observerId c)) as [sn e1].
    by destruct (Hooks.nodeObserves _ _ _ _).
  - by destruct (Hooks.nodeObserves _ _ _ _).
Qed.

(** The effect asks for a rerender when the instance the render resolved
    has been destroyed in the meantime (it has left the registry, or its
    id now names another object): [render({})] is the last event of the
    effect. *)
Theorem useAtomInstance_effect_destroyed (e : Ecosystem) (c : Hooks.Closure) :
  (forall a, n e !! id (Hooks.c_instance c) = Some (AtomInstanceNode a) ->
             serial a <> serial (Hooks.c_instance c)) ->
  (Hooks.useAtomInstance_effect e c).2 = true /\
  log (Hooks.useAtomInstance_effect e c).1.1 =
    (log (Hooks.addEdge_closure e c).1 ++
     [EvHost (ForceRender (Hooks.c_observerId c))])%list.
Proof.
  intros Hgone. unfold Hooks.useAtomInstance_effect.
  destruct (addEdge_closure_instance e c) as (Hi & Ho & _).
  pose proof (atoms_addEdge_closure e c (id (Hooks.c_instance c))) as Hat.
  destruct (Hooks.addEdge_closure e c) as [e1 c1]. cbn [fst snd] in *.
  assert (Hooks.instanceLifecycle e1 (Hooks.c_instance c1) = Destroyed)
    as Hl.
  { rewrite Hi. unfold Hooks.instanceLifecycle.
    destruct (n e1 !! id (Hooks.c_instance c)) as [[a'|x]|]; try done.
    destruct (Hat a' eq_refl) as (a & Ha & Hs).
    destruct (Nat.eqb_spec (serial a') (serial (Hooks.c_instance c)));
      [|done].
    destruct (Hgone a Ha). congruence. }
  cbn [Hooks.withMounted Hooks.c_instance Hooks.c_renderedValue
       Hooks.c_observerId].
  rewrite Hl. cbn [Hooks.isDestroyed]. rewrite orb_true_r.
  cbn [fst snd]. split; [done|]. simpl. by rewrite Ho.
Qed.

Lemma useAtomInstance_effect_destroyed_witness :
  (Hooks.useAtomInstance_effect empty
     {| Hooks.c_observerId := "component";
        Hooks.c_config := Hooks.defaultConfig;
        Hooks.c_instance :=
          initialInstance Scenarios.count Scenarios.count [] 0;
        Hooks.c_renderedValue := VNum 0;
        Hooks.c_node := 0;
        Hooks.c_mounted := false |}).2 = true.
Proof.
  apply useAtomInstance_effect_destroyed.
  intros a H. vm_compute in H. discriminate H.
Defined.

End HookEdges.

Section DynamicHook.

Import Engine.



End DynamicHook.

Section LogFilter.

Lemma filteredLog_kept (f : LogView.Filters) (log : list LogView.LogEvent)
    (ev : LogView.LogEvent) :
  LogView.noFiltersSelected f = false ->
  In ev (LogView.filteredLog f log) <->
  In ev log /\ LogView.eventPasses f ev = true.
Proof.
  intros H. unfold LogView.filteredLog. rewrite H. apply filter_In.
Qed.

(** The filter of the log looks at one event at a time: the filtered
    log of two logs put end to end is the two filtered logs put end to
    end (so an event appended to the log never changes what is shown of
    the events before it), and filtering a second time changes
    nothing. *)
Theorem filteredLog_local (f : LogView.Filters)
    (l1 l2 : list LogView.LogEvent) :
  LogView.filteredLog f (l1 ++ l2)%list =
    (LogView.filteredLog f l1 ++ LogView.filteredLog f l2)%list /\
  LogView.filteredLog f (LogView.filteredLog f l1) = LogView.filteredLog f l1.
Proof.
  unfold LogView.filteredLog.
  destruct (LogView.noFiltersSelected f); [done|].
  split; [apply List.filter_app|].
  induction l1 as [|ev l IH]; [done|]. simpl.
  destruct (LogView.eventPasses f ev) eqn:Hp; [|exact IH].
  simpl. by rewrite Hp, IH.
Qed.

(** With an event-type filter selected, every event shown has one of the
    selected types. *)
Theorem filteredLog_eventType (f : LogView.Filters)
    (log : list LogView.LogEvent) (types : list string)
    (ev : LogView.LogEvent) :
  LogView.eventTypeFilter f = Some types -> types <> [] ->
  In ev (LogView.filteredLog f log) ->
  In (LogView.action_type (LogView.action ev)) types.
Proof.
  intros Ht Hne Hin.
  assert (LogView.noLength (LogView.eventTypeFilter f) = false) as Hlen.
  { rewrite Ht. by destruct types. }
  assert (LogView.noFiltersSelected f = false) as Hsel.
  { unfold LogView.noFiltersSelected. rewrite Hlen. apply andb_false_r. }
  apply (filteredLog_kept f log ev Hsel) in Hin as [_ Hp].
  unfold LogView.eventPasses in Hp. rewrite Hlen in Hp. simpl in Hp.
  destruct (LogView.includes _ _) eqn:Hinc; [|discriminate Hp].
  unfold LogView.includes in Hinc. rewrite Ht in Hinc.
  apply existsb_exists in Hinc as (x & Hx & Heq).
  apply String.eqb_eq in Heq. by subst x.
Qed.

Lemma filteredLog_eventType_witness :
  In (LogView.action_type
        (LogView.InstanceStateChanged Scenarios.sampleInstance))
     ["instanceStateChanged"].
Proof.
  apply (filteredLog_eventType
           {| LogView.atomFilter := None; LogView.atomFlagsFilter := None;
              LogView.atomInstanceFilter := None;
              LogView.atomInstanceActiveStateFilter := None;
              LogView.atomInstanceKeyHashFilter := None;
              LogView.edgeTypeFilter :=
                LogView.edgeTypeFilter Scenarios.noFilters;
              LogView.eventTypeFilter := Some ["instanceStateChanged"] |}
           Scenarios.sampleLog ["instanceStateChanged"]
           {| LogView.id := 2;
              LogView.action :=
                LogView.InstanceStateChanged Scenarios.sampleInstance |}).
  - reflexivity.
  - discriminate.
  - vm_compute. left. reflexivity.
Defined.

End LogFilter.

Section UseAtomMemo.

Variable Scope_App : UseAtom.Arg.
Variable gen : nat -> string.


End UseAtomMemo.


(** ** [getReactContext] *)

Section ReactContext.

Import ReactContexts.

Lemma ownContexts_getReactContext e a :
  ownContexts (getReactContext e a).2 =
    match getProperty (ownContexts e) (key a) with
    | Some _ => ownContexts e
    | None => <[key a := contextsCreated e]> (ownContexts e)
    end.
Proof.
  unfold getReactContext. fold (ownContexts e).
  by destruct (getProperty (ownContexts e) (key a)).
Qed.

Lemma getProperty_None o k :
  getProperty o k = None <-> o !! k = None /\ k ∉ ObjectPrototype_keys.
Proof.
  unfold getProperty. destruct (o !! k) as [c|].
  - split; [discriminate|]. by intros [? _].
  - case_bool_decide as Hk.
    + split; [discriminate|]. by intros [_ ?].
    + by split.
Qed.

Lemma wellFormed_fresh : wellFormed fresh.
Proof. split; intros *; unfold ownContexts; simpl; by rewrite lookup_empty. Qed.

Lemma wellFormed_getReactContext e a :
  wellFormed e -> wellFormed (getReactContext e a).2.
Proof.
  intros [Hown Hinj].
  assert (contextsCreated e <= contextsCreated (getReactContext e a).2) as Hle.
  { unfold getReactContext. destruct (getProperty _ _); simpl; lia. }
  unfold wellFormed. rewrite ownContexts_getReactContext.
  destruct (getProperty (ownContexts e) (key a)) eqn:Hp.
  - split; [|exact Hinj]. intros k c Hk.
    destruct (Hown k c Hk). split; [lia|done].
  - apply getProperty_None in Hp as [Hnone Hproto].
    assert (contextsCreated (getReactContext e a).2 = S (contextsCreated e))
      as ->.
    { unfold getReactContext. fold (ownContexts e).
      unfold getProperty. rewrite Hnone.
      by rewrite bool_decide_eq_false_2. }
    split.
    + intros k c. destruct (decide (key a = k)) as [<-|Hne].
      * rewrite lookup_insert_eq. intros [= <-]. split; [lia|done].
      * rewrite lookup_insert_ne by done. intros Hk.
        destruct (Hown k c Hk). split; [lia|done].
    + intros k1 k2 c.
      destruct (decide (key a = k1)) as [<-|Hne1];
        destruct (decide (key a = k2)) as [<-|Hne2];
        rewrite ?lookup_insert_eq, ?lookup_insert_ne by done; try done.
      * intros [= <-] Hk. destruct (Hown _ _ Hk). lia.
      * intros Hk [= <-]. destruct (Hown _ _ Hk). lia.
      * apply Hinj.
Qed.

Lemma getReactContext_own e a c :
  ownContexts e !! key a = Some c ->
  getReactContext e a =
    (Context c, {| _storage_react := Some (ownContexts e);
                   contextsCreated := contextsCreated e |}).
Proof.
  intros H. unfold getReactContext. fold (ownContexts e).
  unfold getProperty. by rewrite H.
Qed.

Lemma getReactContext_new e a :
  ownContexts e !! key a = None -> key a ∉ ObjectPrototype_keys ->
  getReactContext e a =
    (Context (contextsCreated e),
     {| _storage_react := Some (<[key a := contextsCreated e]> (ownContexts e));
        contextsCreated := S (contextsCreated e) |}).
Proof.
  intros H Hp. unfold getReactContext. fold (ownContexts e).
  unfold getProperty. rewrite H. by rewrite bool_decide_eq_false_2.
Qed.

Lemma getReactContext_stored e a :
  key a ∉ ObjectPrototype_keys ->
  exists c, (getReactContext e a).1 = Context c /\
            ownContexts (getReactContext e a).2 !! key a = Some c.
Proof.
  intros Hp. destruct (ownContexts e !! key a) as [c|] eqn:Hk.
  - exists c. by rewrite (getReactContext_own e a c Hk).
  - exists (contextsCreated e). rewrite (getReactContext_new e a Hk Hp).
    split; [done|]. unfold ownContexts. simpl. apply lookup_insert_eq.
Qed.

Lemma getReactContext_keeps e a k c :
  ownContexts e !! k = Some c ->
  ownContexts (getReactContext e a).2 !! k = Some c.
Proof.
  intros Hk. rewrite ownContexts_getReactContext.
  destruct (getProperty (ownContexts e) (key a)) eqn:Hp; [done|].
  apply getProperty_None in Hp as [Hnone _].
  rewrite lookup_insert_ne; [done|]. intros <-. congruence.
Qed.

(** [getReactContext] gets or creates: for an atom whose key is not the
    name of a property of [Object.prototype] it returns a context; a
    second call returns the same context, creates none and stores
    nothing new; so does a call made after any number of calls for
    other atoms. *)
Theorem getReactContext_get_or_create (e : Ecosystem) (a : AnyAtomTemplate)
    (others : list AnyAtomTemplate) :
  key a ∉ ObjectPrototype_keys ->
  exists c,
    (getReactContext e a).1 = Context c /\
    (let e1 := (getReactContext e a).2 in
     (getReactContext e1 a).1 = Context c /\
     contextsCreated (getReactContext e1 a).2 = contextsCreated e1 /\
     ownContexts (getReactContext e1 a).2 = ownContexts e1) /\
    (getReactContext
       (foldl (fun e' b => (getReactContext e' b).2)
          (getReactContext e a).2 others) a).1 = Context c.
Proof.
  intros Hp. destruct (getReactContext_stored e a Hp) as (c & Hc & Hs).
  exists c. split; [exact Hc|]. split.
  - cbv zeta. rewrite (getReactContext_own _ a c Hs). done.
  - assert (forall e', ownContexts e' !! key a = Some c ->
              ownContexts (foldl (fun e' b => (getReactContext e' b).2)
                             e' others) !! key a = Some c) as Hfold.
    { induction others as [|b l IH]; intros e' He'; [done|].
      simpl. apply IH. by apply getReactContext_keeps. }
    by rewrite (getReactContext_own _ a c (Hfold _ Hs)).
Qed.

Lemma getReactContext_get_or_create_witness :
  exists c,
    (getReactContext fresh {| key := "count" |}).1 = Context c /\
    (getReactContext
       (foldl (fun e' b => (getReactContext e' b).2)
          (getReactContext fresh {| key := "count" |}).2
          [{| key := "other" |}; {| key := "toString" |}])
       {| key := "count" |}).1 = Context c.
Proof.
  destruct (getReactContext_get_or_create fresh {| key := "count" |}
              [{| key := "other" |}; {| key := "toString" |}])
    as (c & H1 & _ & H3).
  - apply (bool_decide_unpack _). vm_compute. exact I.
  - exists c. split; [exact H1 | exact H3].
Defined.

(** Atoms with different keys get different contexts, in every storage
    the function has built: the context of the second is not the
    context of the first, whether it was stored before or is created
    now. *)
Theorem getReactContext_distinct (e : Ecosystem) (a b : AnyAtomTemplate) :
  wellFormed e ->
  key a ∉ ObjectPrototype_keys -> key b ∉ ObjectPrototype_keys ->
  key a <> key b ->
  (getReactContext (getReactContext e a).2 b).1 <> (getReactContext e a).1 /\
  wellFormed (getReactContext (getReactContext e a).2 b).2.
Proof.
  intros Hwf Ha Hb Hne.
  pose proof (wellFormed_getReactContext e a Hwf) as Hwf1.
  split; [|by apply wellFormed_getReactContext].
  destruct (getReactContext_stored e a Ha) as (c & Hc & Hs).
  destruct (getReactContext_stored (getReactContext e a).2 b Hb)
    as (d & Hd & Hsd).
  rewrite Hc, Hd. intros [= ->].
  apply (getReactContext_keeps _ b) in Hs.
  destruct Hne. symmetry.
  apply (proj2 (wellFormed_getReactContext _ b Hwf1) _ _ c Hsd Hs).
Qed.

Lemma getReactContext_distinct_witness :
  (getReactContext (getReactContext fresh {| key := "a" |}).2
     {| key := "b" |}).1 <>
  (getReactContext fresh {| key := "a" |}).1.
Proof.
  apply (getReactContext_distinct fresh {| key := "a" |} {| key := "b" |}).
  - apply wellFormed_fresh.
  - apply (bool_decide_unpack _). vm_compute. exact I.
  - apply (bool_decide_unpack _). vm_compute. exact I.
  - discriminate.
Defined.

(** An atom whose key is the name of a property of [Object.prototype]
    ("constructor", "toString", ...) gets no context: in every storage
    the function has built, [reactStorage[key]] finds the inherited
    property, which is truthy, so the function returns it, and
    [createContext] is not called. *)
Theorem getReactContext_inherited (e : Ecosystem) (a : AnyAtomTemplate) :
  wellFormed e ->
  key a ∈ ObjectPrototype_keys ->
  (getReactContext e a).1 = Inherited (key a) /\
  contextsCreated (getReactContext e a).2 = contextsCreated e /\
  ownContexts (getReactContext e a).2 = ownContexts e.
Proof.
  intros [Hown _] Hp.
  assert (ownContexts e !! key a = None) as Hnone.
  { destruct (ownContexts e !! key a) as [c|] eqn:Hk; [|done].
    by destruct (Hown _ _ Hk). }
  unfold getReactContext. fold (ownContexts e).
  unfold getProperty. rewrite Hnone.
  by rewrite bool_decide_eq_true_2.
Qed.

Lemma getReactContext_inherited_witness :
  (getReactContext (getReactContext fresh {| key := "count" |}).2
     {| key := "constructor" |}).1 = Inherited "constructor".
Proof.
  apply (getReactContext_inherited
           (getReactContext fresh {| key := "count" |}).2
           {| key := "constructor" |}).
  - apply wellFormed_getReactContext, wellFormed_fresh.
  - apply (bool_decide_unpack _). vm_compute. exact I.
Defined.

End ReactContext.

(** ** The subscription of the [Log] component *)

Section Subscription.

Import LogSubscription.

Lemma callsOf_setLog c r l k :
  callsOf k (setLog c r l) =
    (callsOf k c ++ if (r =? k)%nat then [l] else [])%list.
Proof.
  unfold callsOf, setLog. simpl. rewrite omap_app. simpl.
  by destruct (r =? k)%nat.
Qed.

Lemma stale_step c ev k :
  isCurrent c !! k = Some false ->
  isCurrent (step c ev) !! k = Some false /\
  callsOf k (step c ev) = callsOf k c.
Proof.
  intros Hk.
  assert (k < length (isCurrent c)) as Hlt by by eapply lookup_lt_Some.
  destruct ev as [state|r newState oldState| |r]; simpl.
  - split.
    + by rewrite lookup_app_l.
    + rewrite callsOf_setLog.
      destruct (Nat.eqb_spec (length (isCurrent c)) k); [lia|].
      by rewrite app_nil_r.
  - unfold subscriber. by destruct (sameLog _ _).
  - unfold timeout. destruct (timeouts c) as [|[r l] rest]; [done|].
    destruct (isCurrent c !! r) as [[]|] eqn:Hr; try done.
    split; [done|]. rewrite callsOf_setLog.
    destruct (Nat.eqb_spec r k) as [->|]; [congruence|].
    by rewrite app_nil_r.
  - split; [|done]. destruct (decide (r = k)) as [->|Hne].
    + by apply list_lookup_insert_eq.
    + by rewrite list_lookup_insert_ne.
Qed.

Lemma stale_run c evs k :
  isCurrent c !! k = Some false ->
  isCurrent (run c evs) !! k = Some false /\
  callsOf k (run c evs) = callsOf k c.
Proof.
  revert c. induction evs as [|ev evs IH]; intros c Hk; [done|].
  simpl. destruct (stale_step c ev k Hk) as [H1 H2].
  destruct (IH _ H1) as [H3 H4]. split; [done|]. by rewrite H4.
Qed.

(** Once the cleanup of a run of the effect has run, that run never
    calls [setLog] again, whatever happens afterwards: its pending
    timeouts fire without effect, and so do those of notifications that
    still reach its subscriber. *)
Theorem cleanup_silences (c : Component) (k : nat) (evs : list Event) :
  k < length (isCurrent c) ->
  callsOf k (run (cleanup c k) evs) = callsOf k c /\
  isCurrent (run (cleanup c k) evs) !! k = Some false.
Proof.
  intros Hlt.
  assert (isCurrent (cleanup c k) !! k = Some false) as Hk.
  { simpl. by apply list_lookup_insert_eq. }
  destruct (stale_run _ evs k Hk) as [H1 H2]. split; [|done].
  by rewrite H2.
Qed.

Lemma cleanup_silences_witness :
  callsOf 0
    (run (cleanup
            (run (mount {| log := {| log_ref := 1; events := [] |} |})
               [RunEffect {| log := {| log_ref := 1; events := [] |} |};
                Notify 0 {| log := {| log_ref := 2; events := [] |} |}
                  (Some {| log := {| log_ref := 1; events := [] |} |})])
            0)
       [Timeout]) =
  [{| log_ref := 1; events := [] |}].
Proof.
  apply (cleanup_silences
           (run (mount {| log := {| log_ref := 1; events := [] |} |})
              [RunEffect {| log := {| log_ref := 1; events := [] |} |};
               Notify 0 {| log := {| log_ref := 2; events := [] |} |}
                 (Some {| log := {| log_ref := 1; events := [] |} |})])
           0 [Timeout]).
  vm_compute. lia.
Defined.

Lemma fromStore_step c ev evs r l :
  fromStore (step c ev) evs r l -> fromStore c (ev :: evs) r l.
Proof.
  unfold fromStore.
  intros [H|[H|[(s & Hs & ->)|(n & o & Hn & Hsame & ->)]]].
  - destruct ev as [state|r' newState oldState| |r']; simpl in H.
    + apply elem_of_app in H as [H|H]; [by left|].
      apply list_elem_of_singleton in H as [= -> ->].
      right; right; left. exists state. split; [by constructor|done].
    + unfold subscriber in H. destruct (sameLog _ _); by left.
    + unfold timeout in H. destruct (timeouts c) as [|[r' l'] rest] eqn:Ht;
        [by left|].
      destruct (isCurrent c !! r') as [[]|]; simpl in H; try by left.
      apply elem_of_app in H as [H|H]; [by left|].
      apply list_elem_of_singleton in H as [= -> ->].
      right; left. left.
    + by left.
  - destruct ev as [state|r' newState oldState| |r']; simpl in H.
    + by right; left.
    + unfold subscriber in H. destruct (sameLog _ _) eqn:Hsame;
        [by right; left|]. simpl in H.
      apply elem_of_app in H as [H|H]; [by right; left|].
      apply list_elem_of_singleton in H as [= -> ->].
      right; right; right. exists newState, oldState.
      split; [by constructor|done].
    + unfold timeout in H. destruct (timeouts c) as [|[r' l'] rest] eqn:Ht;
        [by rewrite Ht in H; apply elem_of_nil in H|].
      right; left.
      destruct (isCurrent c !! r') as [[]|]; simpl in H; by right.
    + by right; left.
  - right; right; left. exists s. split; [by constructor|done].
  - right; right; right. exists n, o. split; [by constructor|done].
Qed.

Lemma fromStore_run evs c r l :
  (r, l) ∈ setLogCalls (run c evs) \/ (r, l) ∈ timeouts (run c evs) ->
  fromStore c evs r l.
Proof.
  revert c. induction evs as [|ev evs IH]; intros c H.
  - destruct H; [by left|by right; left].
  - apply fromStore_step, IH, H.
Qed.

Lemma shown_step c ev d :
  shown c = default d (last (setLogCalls c).*2) ->
  shown (step c ev) = default d (last (setLogCalls (step c ev)).*2).
Proof.
  intros H. destruct ev as [state|r' newState oldState| |r']; simpl.
  - rewrite fmap_app. simpl. by rewrite last_snoc.
  - unfold subscriber. by destruct (sameLog _ _).
  - unfold timeout. destruct (timeouts c) as [|[r' l'] rest]; [done|].
    destruct (isCurrent c !! r') as [[]|]; simpl; try done.
    rewrite fmap_app. simpl. by rewrite last_snoc.
  - done.
Qed.

(** Everything the component shows comes from the store: the log shown
    is the one of the last [setLog] call, or the initial one; and every
    log [setLog] was given is the log of the state an effect run read,
    or the [newState.log] of a notification whose log array was not the
    one of the old state. A notification that leaves the log array as it
    is never leads to a [setLog]. *)
Theorem setLog_from_store (s : StoreState) (evs : list Event) :
  shown (run (mount s) evs) =
    default (log s) (last (setLogCalls (run (mount s) evs)).*2) /\
  forall r l, (r, l) ∈ setLogCalls (run (mount s) evs) ->
    (exists s', RunEffect s' ∈ evs /\ l = log s') \/
    (exists n o, Notify r n o ∈ evs /\ sameLog n o = false /\ l = log n).
Proof.
  split.
  - assert (forall c, shown c = default (log s) (last (setLogCalls c).*2) ->
              shown (run c evs) =
                default (log s) (last (setLogCalls (run c evs)).*2)) as H.
    { induction evs as [|ev evs IH]; intros c Hc; [done|].
      simpl. by apply IH, shown_step. }
    by apply H.
  - intros r l H.
    destruct (fromStore_run evs (mount s) r l (or_introl H))
      as [H'|[H'|H']]; [| |exact H'].
    + by apply elem_of_nil in H'.
    + by apply elem_of_nil in H'.
Qed.

Lemma notify_run c k ns :
  Forall (fun p : StoreState * option StoreState =>
            sameLog p.1 p.2 = false) ns ->
  run c (map (fun p => Notify k p.1 p.2) ns) =
    {| shown := shown c; isCurrent := isCurrent c;
       timeouts := timeouts c ++ map (fun p => (k, log p.1)) ns;
       setLogCalls := setLogCalls c |}.
Proof.
  intros H. revert c. induction H as [|[n o] ns Hn _ IH]; intros c.
  - simpl. rewrite app_nil_r. by destruct c.
  - simpl in *. rewrite IH. unfold subscriber. rewrite Hn. simpl.
    by rewrite <- app_assoc.
Qed.

Lemma drain_current c k ls :
  isCurrent c !! k = Some true ->
  timeouts c = map (fun l => (k, l)) ls ->
  timeouts (run c (repeat Timeout (length ls))) = [] /\
  shown (run c (repeat Timeout (length ls))) = default (shown c) (last ls) /\
  isCurrent (run c (repeat Timeout (length ls))) = isCurrent c.
Proof.
  revert c. induction ls as [|l ls IH]; intros c Hk Ht; [done|].
  assert (timeout c =
          setLog {| shown := shown c; isCurrent := isCurrent c;
                    timeouts := map (fun l => (k, l)) ls;
                    setLogCalls := setLogCalls c |} k l) as Heq.
  { unfold timeout. rewrite Ht. simpl. by rewrite Hk. }
  change (run c (repeat Timeout (length (l :: ls))))
    with (run (timeout c) (repeat Timeout (length ls))).
  rewrite Heq.
  edestruct (IH (setLog
                   {| shown := shown c; isCurrent := isCurrent c;
                      timeouts := map (fun l => (k, l)) ls;
                      setLogCalls := setLogCalls c |} k l)) as (H1 & H2 & H3);
    [exact Hk|done|].
  split; [exact H1|]. split; [|exact H3].
  rewrite H2, last_cons. simpl. by destruct (last ls).
Qed.

(** While a run of the effect is current, the component catches up with
    the store: after any number of notifications that changed the log
    array, once the timeouts they scheduled have run, the log shown is
    the one of the last notification and no timeout is pending. *)
Theorem notifications_shown (c : Component) (k : nat)
    (ns : list (StoreState * option StoreState))
    (newState : StoreState) (oldState : option StoreState) :
  isCurrent c !! k = Some true ->
  timeouts c = [] ->
  Forall (fun p => sameLog p.1 p.2 = false) ns ->
  last ns = Some (newState, oldState) ->
  shown (run c (map (fun p => Notify k p.1 p.2) ns ++
                repeat Timeout (length ns))%list) = log newState /\
  timeouts (run c (map (fun p => Notify k p.1 p.2) ns ++
                   repeat Timeout (length ns))%list) = [].
Proof.
  intros Hk Ht Hns Hlast. unfold run. rewrite foldl_app.
  fold (run c (map (fun p => Notify k p.1 p.2) ns)).
  rewrite (notify_run c k ns Hns), Ht. simpl.
  set (c1 := {| shown := shown c |}).
  fold (run c1 (repeat Timeout (length ns))).
  destruct (drain_current c1 k (map (fun p => log p.1) ns)) as (H1 & H2 & _).
  - exact Hk.
  - subst c1. simpl. by rewrite map_map.
  - rewrite length_map in H1, H2. split; [|exact H1].
    rewrite H2.
    change (map (fun p : StoreState * option StoreState => log p.1) ns)
      with ((fun p : StoreState * option StoreState => log p.1) <$> ns).
    by rewrite fmap_last, Hlast.
Qed.

Lemma notifications_shown_witness :
  shown
    (run (effect (mount {| log := {| log_ref := 1; events := [] |} |})
            {| log := {| log_ref := 1; events := [] |} |}).2
       [Notify 0 {| log := {| log_ref := 2; events := [] |} |}
          (Some {| log := {| log_ref := 1; events := [] |} |});
        Notify 0 {| log := {| log_ref := 3; events := [] |} |}
          (Some {| log := {| log_ref := 2; events := [] |} |});
        Timeout; Timeout]) =
  {| log_ref := 3; events := [] |}.
Proof.
  apply (notifications_shown
           (effect (mount {| log := {| log_ref := 1; events := [] |} |})
              {| log := {| log_ref := 1; events := [] |} |}).2
           0
           [({| log := {| log_ref := 2; events := [] |} |},
             Some {| log := {| log_ref := 1; events := [] |} |});
            ({| log := {| log_ref := 3; events := [] |} |},
             Some {| log := {| log_ref := 2; events := [] |} |})]
           {| log := {| log_ref := 3; events := [] |} |}
           (Some {| log := {| log_ref := 2; events := [] |} |})).
  - reflexivity.
  - reflexivity.
  - repeat constructor.
  - reflexivity.
Defined.

End Subscription.

(** ** More on the filter of the log *)

Section LogFilterScope.

Import LogView LogFilters.

Lemma filteredLog_In f log ev :
  noFiltersSelected f = false ->
  In ev (filteredLog f log) -> eventPasses f ev = true.
Proof.
  intros H. unfold filteredLog. rewrite H. intros Hin.
  by apply filter_In in Hin as [_ ?].
Qed.

Lemma noFiltersSelected_false_edge f b :
  filter_isExplicit (edgeTypeFilter f) = Some b \/
  filter_isExternal (edgeTypeFilter f) = Some b \/
  filter_isStatic (edgeTypeFilter f) = Some b ->
  (length (definedEdgeTypes (edgeTypeFilter f)) =? 0)%nat = false /\
  noFiltersSelected f = false.
Proof.
  intros H.
  assert ((length (definedEdgeTypes (edgeTypeFilter f)) =? 0)%nat = false)
    as He.
  { unfold definedEdgeTypes. simpl.
    destruct (filter_isExplicit (edgeTypeFilter f)),
      (filter_isExternal (edgeTypeFilter f)),
      (filter_isStatic (edgeTypeFilter f)); simpl; try done.
    destruct H as [H|[H|H]]; discriminate H. }
  split; [exact He|]. unfold noFiltersSelected. rewrite He.
  by rewrite andb_false_r.
Qed.

Lemma flagMismatch_false w a b :
  flagMismatch w a = false -> w = Some b -> a = Some b.
Proof.
  intros H ->. destruct a as [a|]; simpl in H; [|done].
  destruct a, b; simpl in H; done.
Qed.

Lemma edgePasses_true f edge :
  edgePasses f edge = true ->
  flagMismatch (filter_isExplicit (edgeTypeFilter f)) (isExplicit edge) = false
  /\
  flagMismatch (filter_isExternal (edgeTypeFilter f)) (isExternal edge) = false
  /\
  flagMismatch (filter_isStatic (edgeTypeFilter f)) (isStatic edge) = false.
Proof.
  unfold edgePasses. cbv zeta.
  destruct (flagMismatch (filter_isExplicit _) _); [done|].
  destruct (flagMismatch (filter_isExternal _) _); [done|].
  by destruct (flagMismatch (filter_isStatic _) _).
Qed.

Lemma eventPasses_edge f ev edge :
  eventPasses f ev = true -> eventEdge (action ev) = Some edge ->
  edgePasses f edge = true.
Proof.
  unfold eventPasses. destruct (_ && _); [done|].
  destruct (action ev); simpl; try done; intros H [= <-];
    by apply andb_true_iff in H as [? _].
Qed.

(** The edge-type filter constrains the events about edges and no other
    event: with a flag selected, every event about an edge (or a ghost
    edge) that is shown has an edge with that flag set to the selected
    value; and when the edge-type filter is the only filter selected,
    every [instanceStateChanged] and [instanceActiveStateChanged] event
    of the log is shown. *)
Theorem edgeTypeFilter_scope (f : Filters) (log : list LogEvent) :
  (forall ev edge,
     In ev (filteredLog f log) -> eventEdge (action ev) = Some edge ->
     (forall b, filter_isExplicit (edgeTypeFilter f) = Some b ->
                isExplicit edge = Some b) /\
     (forall b, filter_isExternal (edgeTypeFilter f) = Some b ->
                isExternal edge = Some b) /\
     (forall b, filter_isStatic (edgeTypeFilter f) = Some b ->
                isStatic edge = Some b)) /\
  (noLength (atomFilter f) = true -> noLength (atomFlagsFilter f) = true ->
   noLength (atomInstanceActiveStateFilter f) = true ->
   noLength (atomInstanceFilter f) = true ->
   noLength (atomInstanceKeyHashFilter f) = true ->
   noLength (eventTypeFilter f) = true ->
   forall ev instance,
     In ev log ->
     action ev = InstanceStateChanged instance \/
     action ev = InstanceActiveStateChanged instance ->
     In ev (filteredLog f log)).
Proof.
  split.
  - intros ev edge Hin He.
    assert (forall b,
              filter_isExplicit (edgeTypeFilter f) = Some b \/
              filter_isExternal (edgeTypeFilter f) = Some b \/
              filter_isStatic (edgeTypeFilter f) = Some b ->
              edgePasses f edge = true) as Hp.
    { intros b Hb.
      destruct (noFiltersSelected_false_edge f b Hb) as [_ Hsel].
      apply (eventPasses_edge f ev); [|exact He].
      by apply (filteredLog_In f log). }
    repeat split; intros b Hb.
    + eapply flagMismatch_false; [|exact Hb].
      apply (edgePasses_true f edge); eauto.
    + eapply flagMismatch_false; [|exact Hb].
      apply (edgePasses_true f edge); eauto.
    + eapply flagMismatch_false; [|exact Hb].
      apply (edgePasses_true f edge); eauto.
  - intros H1 H2 H3 H4 H5 H6 ev instance Hin Hact.
    unfold filteredLog. destruct (noFiltersSelected f); [exact Hin|].
    apply filter_In. split; [exact Hin|].
    unfold eventPasses. rewrite H6. simpl.
    assert (instancePasses f instance = true) as Hi.
    { unfold instancePasses. cbv zeta. rewrite H1, H2, H3, H4, H5. done. }
    by destruct Hact as [-> | ->].
Qed.

Lemma ActiveState_eqb_eq a b : Types.ActiveState_eqb a b = true -> a = b.
Proof. by destruct a, b. Qed.

Lemma instancePasses_activeState f instance l :
  atomInstanceActiveStateFilter f = Some l -> l <> [] ->
  instancePasses f instance = true -> In (_activeState instance) l.
Proof.
  intros Hl Hne. unfold instancePasses. cbv zeta. rewrite Hl.
  assert (noLength (Some l) = false) as -> by by destruct l.
  simpl. intros H.
  assert (existsb (Types.ActiveState_eqb (_activeState instance)) l = true)
    as He.
  { destruct (_ && _); [exact H|]. by apply andb_true_iff in H as [_ ?]. }
  apply existsb_exists in He as (x & Hx & Heq).
  by rewrite (ActiveState_eqb_eq _ _ Heq).
Qed.

(** The active-state filter is a condition on top of the others: with
    states selected, every event shown is about an instance (for an
    edge, the dependency or the dependent) whose active state is one of
    the selected states. *)
Theorem activeStateFilter_holds (f : Filters) (log : list LogEvent)
    (states : list Types.ActiveState) (ev : LogEvent) :
  atomInstanceActiveStateFilter f = Some states -> states <> [] ->
  In ev (filteredLog f log) ->
  exists instance,
    In instance (eventInstances (action ev)) /\
    In (_activeState instance) states.
Proof.
  intros Hl Hne Hin.
  assert (noFiltersSelected f = false) as Hsel.
  { unfold noFiltersSelected. rewrite Hl.
    assert (noLength (Some states) = false) as -> by by destruct states.
    by rewrite andb_false_r. }
  apply (filteredLog_In f log ev Hsel) in Hin.
  unfold eventPasses in Hin. destruct (_ && _); [done|].
  pose proof (fun i => instancePasses_activeState f i states Hl Hne) as Hst.
  destruct (action ev) as [d dep e|d dep e|g|g|i|i|t]; simpl; try done.
  - apply andb_true_iff in Hin as [_ Hin].
    apply orb_true_iff in Hin as [Hin|Hin].
    + exists d. split; [by left|by apply Hst].
    + destruct dep as [name|i]; [done|].
      exists i. split; [right; by left|by apply Hst].
  - apply andb_true_iff in Hin as [_ Hin].
    apply orb_true_iff in Hin as [Hin|Hin].
    + exists d. split; [by left|by apply Hst].
    + destruct dep as [name|i]; [done|].
      exists i. split; [right; by left|by apply Hst].
  - apply andb_true_iff in Hin as [_ Hin].
    exists (ghost_dependency g). split; [by left|by apply Hst].
  - apply andb_true_iff in Hin as [_ Hin].
    exists (ghost_dependency g). split; [by left|by apply Hst].
  - exists i. split; [by left|by apply Hst].
  - exists i. split; [by left|by apply Hst].
Qed.

Lemma activeStateFilter_holds_witness :
  exists instance,
    In instance
      (eventInstances (InstanceStateChanged Scenarios.sampleInstance)) /\
    In (_activeState instance) [Types.Active].
Proof.
  apply (activeStateFilter_holds
           {| atomFilter := None; atomFlagsFilter := None;
              atomInstanceFilter := None;
              atomInstanceActiveStateFilter := Some [Types.Active];
              atomInstanceKeyHashFilter := None;
              edgeTypeFilter := edgeTypeFilter Scenarios.noFilters;
              eventTypeFilter := None |}
           Scenarios.sampleLog [Types.Active]
           {| id := 2;
              action := InstanceStateChanged Scenarios.sampleInstance |}).
  - reflexivity.
  - discriminate.
  - vm_compute. left. reflexivity.
Defined.

Lemma lowerAscii_idem c : lowerAscii (lowerAscii c) = lowerAscii c.
Proof. destruct c as [[] [] [] [] [] [] [] []]; reflexivity. Qed.

Lemma toLowerCase_idem s : toLowerCase (toLowerCase s) = toLowerCase s.
Proof.
  induction s as [|c s IH]; [done|]. simpl. by rewrite lowerAscii_idem, IH.
Qed.

Lemma existsb_lower (g : string -> bool) l :
  existsb (fun p => g (toLowerCase p)) l = existsb g (map toLowerCase l).
Proof. induction l as [|x l IH]; [done|]. simpl. by rewrite IH. Qed.

Lemma filteredLog_ext f1 f2 log :
  noFiltersSelected f1 = noFiltersSelected f2 ->
  (forall ev, eventPasses f1 ev = eventPasses f2 ev) ->
  filteredLog f1 log = filteredLog f2 log.
Proof.
  intros Hsel Hp. unfold filteredLog. rewrite Hsel.
  destruct (noFiltersSelected f2); [done|]. by apply filter_ext.
Qed.

(** The key-hash filter does not look at the case of its entries: two
    lists of partial key hashes that agree up to case select the same
    events. In particular an entry can be replaced by its lower-case
    form. *)
Theorem keyHashFilter_ignores_case (f : Filters) (l1 l2 : list string)
    (log : list LogEvent) :
  map toLowerCase l1 = map toLowerCase l2 ->
  filteredLog (withKeyHashFilter f (Some l1)) log =
    filteredLog (withKeyHashFilter f (Some l2)) log.
Proof.
  intros Heq.
  assert (length l1 = length l2) as Hlen.
  { by rewrite <- (length_map toLowerCase l1), Heq, length_map. }
  assert (forall i, instancePasses (withKeyHashFilter f (Some l1)) i =
                    instancePasses (withKeyHashFilter f (Some l2)) i) as Hi.
  { intros i. unfold instancePasses. simpl.
    rewrite Hlen.
    rewrite (existsb_lower
               (fun q => stringIncludes (toLowerCase (keyHash i)) q) l1).
    rewrite (existsb_lower
               (fun q => stringIncludes (toLowerCase (keyHash i)) q) l2).
    by rewrite Heq. }
  apply filteredLog_ext.
  - unfold noFiltersSelected. simpl. by rewrite Hlen.
  - intros ev. unfold eventPasses. simpl.
    change (edgePasses (withKeyHashFilter f (Some l1)))
      with (edgePasses (withKeyHashFilter f (Some l2))).
    destruct (action ev) as [d [name|dep] e|d [name|dep] e|g|g|i|i|t];
      by rewrite ?Hi.
Qed.

Lemma keyHashFilter_ignores_case_witness :
  filteredLog (withKeyHashFilter Scenarios.noFilters (Some ["COUNT"]))
    Scenarios.sampleLog =
  filteredLog (withKeyHashFilter Scenarios.noFilters (Some ["count"]))
    Scenarios.sampleLog.
Proof.
  apply (keyHashFilter_ignores_case Scenarios.noFilters ["COUNT"] ["count"]).
  reflexivity.
Defined.

Lemma filter_sublist_impl {A} (p q : A -> bool) (l : list A) :
  (forall x, p x = true -> q x = true) ->
  List.filter p l `sublist_of` List.filter q l.
Proof.
  intros H. induction l as [|x l IH]; [done|]. simpl.
  destruct (p x) eqn:Hp.
  - rewrite (H x Hp). by constructor.
  - destruct (q x); [by constructor|done].
Qed.

Lemma includes_mono (l l' : list string) x :
  (forall y, In y l -> In y l') ->
  includes (Some l) x = true -> includes (Some l') x = true.
Proof.
  intros Hsub. simpl. intros H.
  apply existsb_exists in H as (y & Hy & Heq).
  apply existsb_exists. exists y. split; [by apply Hsub|done].
Qed.

(** Adding keys to an atom filter that selects something already never
    hides an event: the log filtered with the smaller list of keys is a
    subsequence of the log filtered with the larger one. *)
Theorem atomFilter_monotone (f : Filters) (l l' : list string)
    (log : list LogEvent) :
  l <> [] -> (forall k, In k l -> In k l') ->
  filteredLog (withAtomFilter f (Some l)) log `sublist_of`
    filteredLog (withAtomFilter f (Some l')) log.
Proof.
  intros Hne Hsub.
  assert (l' <> []) as Hne'.
  { destruct l as [|x l]; [done|]. intros ->. apply (Hsub x). by left. }
  assert (forall l0 : list string, l0 <> [] ->
            noLength (Some l0) = false) as Hlen.
  { by intros [|? ?]. }
  assert (forall i, instancePasses (withAtomFilter f (Some l)) i = true ->
                    instancePasses (withAtomFilter f (Some l')) i = true)
    as Hi.
  { intros i. unfold instancePasses. simpl.
    change (length l =? 0)%nat with (noLength (Some l)).
    change (length l' =? 0)%nat with (noLength (Some l')).
    rewrite (Hlen l Hne), (Hlen l' Hne'). simpl.
    intros H. apply andb_true_iff in H as [H Hs].
    apply andb_true_iff. split; [|exact Hs].
    apply orb_true_iff in H as [H|H]; [|by rewrite H, orb_true_r].
    apply orb_true_iff in H as [H|H]; [|by rewrite H, !orb_true_r].
    apply orb_true_iff in H as [H|H];
      [|by rewrite H, orb_true_r].
    change (existsb (String.eqb (key (atom i))) l)
      with (includes (Some l) (key (atom i))) in H.
    change (existsb (String.eqb (key (atom i))) l')
      with (includes (Some l') (key (atom i))).
    by rewrite (includes_mono l l' _ Hsub H). }
  unfold filteredLog, noFiltersSelected. simpl.
  change (length l =? 0)%nat with (noLength (Some l)).
  change (length l' =? 0)%nat with (noLength (Some l')).
  rewrite (Hlen l Hne), (Hlen l' Hne'). simpl.
  apply filter_sublist_impl. intros ev. unfold eventPasses. simpl.
  change (edgePasses (withAtomFilter f (Some l)))
    with (edgePasses (withAtomFilter f (Some l'))).
  destruct (_ && _); [done|].
  destruct (action ev) as [d [name|dep] e|d [name|dep] e|g|g|i|i|t];
    try done; try apply Hi.
  all: intros H; apply andb_true_iff in H as [He H];
    apply andb_true_iff; (split; [exact He|]);
    rewrite ?orb_false_r in *; try (by apply Hi).
  all: apply orb_true_iff in H as [H|H]; apply orb_true_iff;
    [left|right]; by apply Hi.
Qed.

Lemma atomFilter_monotone_witness :
  filteredLog (withAtomFilter Scenarios.noFilters (Some ["other"]))
    Scenarios.sampleLog `sublist_of`
  filteredLog (withAtomFilter Scenarios.noFilters (Some ["count"; "other"]))
    Scenarios.sampleLog.
Proof.
  apply (atomFilter_monotone Scenarios.noFilters ["other"] ["count"; "other"]).
  - discriminate.
  - simpl. intros k [<-|[]]. right. left. reflexivity.
Defined.

(** An event-type filter that selects only types the filter has no case
    for empties the log: an event of a selected type falls to the
    [default] of the switch, and every other event fails the type
    test. *)
Theorem eventTypeFilter_unhandled_empty (f : Filters) (types : list string)
    (log : list LogEvent) :
  eventTypeFilter f = Some types -> types <> [] ->
  (forall t, In t types -> ~ In t handledTypes) ->
  filteredLog f log = [].
Proof.
  intros Ht Hne Hun.
  assert (noLength (eventTypeFilter f) = false) as Hlen.
  { rewrite Ht. by destruct types. }
  unfold filteredLog, noFiltersSelected. rewrite Hlen, andb_false_r.
  induction log as [|ev log IH]; [done|]. simpl. rewrite IH.
  destruct (eventPasses f ev) eqn:Hp; [|done].
  pose proof (eventPasses_handled f ev Hp) as Hh.
  unfold eventPasses in Hp. rewrite Hlen in Hp. simpl in Hp.
  destruct (includes _ _) eqn:Hinc; [|discriminate Hp].
  unfold includes in Hinc. rewrite Ht in Hinc.
  apply existsb_exists in Hinc as (x & Hx & Heq).
  apply String.eqb_eq in Heq. subst x. by destruct (Hun _ Hx).
Qed.

Lemma eventTypeFilter_unhandled_empty_witness :
  filteredLog
    {| atomFilter := None; atomFlagsFilter := None;
       atomInstanceFilter := None; atomInstanceActiveStateFilter := None;
       atomInstanceKeyHashFilter := None;
       edgeTypeFilter := edgeTypeFilter Scenarios.noFilters;
       eventTypeFilter := Some ["wipe"] |}
    Scenarios.sampleLog = [].
Proof.
  apply (eventTypeFilter_unhandled_empty _ ["wipe"]).
  - reflexivity.
  - discriminate.
  - simpl. intros t [<-|[]] H. decompose [or] H; discriminate || contradiction.
Defined.

End LogFilterScope.

(** ** The key check of [useAtom] *)

Section UseAtomKeys.

Variable Scope_App : UseAtom.Arg.
Variable gen : nat -> string.

(** The check [!paramA] only looks at the first argument itself. An
    array or a config object is truthy, so on the first render nothing
    is thrown for it, whatever key it holds: [createAtom] is called with
    an atom whose key is the first element of the array, [undefined]
    for the empty array, or the [key] property of the config,
    [undefined] when the config has none. *)
Theorem useAtom_unchecked_keys (w : UseAtom.World)
    (paramA maybeFactory : UseAtom.Arg) :
  UseAtom.memo w = None ->
  UseAtom.typeofIsObject paramA = true -> paramA <> UseAtom.ANull ->
  exists atom options params,
    UseAtom.useAtom Scope_App gen w paramA maybeFactory =
      (Normal {| UseAtom.call_atom := atom; UseAtom.call_params := params |},
       {| UseAtom.memo := Some atom;
          UseAtom.idsGenerated := S (UseAtom.idsGenerated w);
          UseAtom.createAtomCalls :=
            (UseAtom.createAtomCalls w ++ [(atom, options)])%list |}) /\
    UseAtom.key atom =
      match paramA with
      | UseAtom.AArray items => UseAtom.first items
      | _ => UseAtom.prop paramA "key"
      end /\
    (paramA = UseAtom.AArray [] -> UseAtom.key atom = UseAtom.AUndefined) /\
    (forall fields, paramA = UseAtom.AObject fields ->
       (forall v, ~ In ("key", v) fields) ->
       UseAtom.key atom = UseAtom.AUndefined).
Proof.
  intros Hw Hobj Hnull.
  assert (forall fields, (forall v, ~ In ("key", v) fields) ->
            UseAtom.getField fields "key" = UseAtom.AUndefined) as Hfield.
  { induction fields as [|[k v] l IH]; intros Hno; [done|]. simpl.
    destruct (String.eqb_spec k "key") as [->|Hne].
    - destruct (Hno v). by left.
    - apply IH. intros v' Hin. apply (Hno v'). by right. }
  unfold UseAtom.useAtom, UseAtom.useMemo0. rewrite Hw.
  unfold UseAtom.makeAtom.
  destruct paramA as [| | | | | |items|fields|]; try discriminate Hobj;
    [done| |]; simpl.
  - eexists _, _, _. split; [reflexivity|]. simpl.
    split; [done|]. split; [by intros [= ->]|]. intros fields [=].
  - eexists _, _, _. split; [reflexivity|]. simpl.
    split; [done|]. split; [intros [=]|].
    intros fields' [= <-]. apply Hfield.
Qed.

End UseAtomKeys.

Lemma useAtom_unchecked_keys_witness :
  exists atom options params,
    UseAtom.useAtom (UseAtom.AString "App") (fun _ => "id") UseAtom.mount
      (UseAtom.AArray []) UseAtom.AUndefined =
      (Normal {| UseAtom.call_atom := atom; UseAtom.call_params := params |},
       {| UseAtom.memo := Some atom; UseAtom.idsGenerated := 1;
          UseAtom.createAtomCalls := [(atom, options)] |}) /\
    UseAtom.key atom = UseAtom.AUndefined.
Proof.
  destruct (useAtom_unchecked_keys (UseAtom.AString "App") (fun _ => "id")
              UseAtom.mount (UseAtom.AArray []) UseAtom.AUndefined)
    as (atom & options & params & H1 & _ & H3 & _).
  - reflexivity.
  - reflexivity.
  - discriminate.
  - exists atom, options, params. split; [exact H1|]. by apply H3.
Defined.

(** ** Renders of [useAtomInstanceDynamic] *)

Section DynamicRenders.

Import Engine.





End DynamicRenders.

(** ** The edge of a render of [useAtomInstance] *)

Section RenderEdge.

Import Engine.

(** The edge is added before the hook looks at the promise: a render
    that suspends (it throws the promise of a [loading] instance) has
    already added the edge from the component to the instance, with the
    flags of the config. *)
Theorem useAtomInstance_suspended_edge (fuel : nat) (e0 e1 : Ecosystem)
    (observerId : string) (mounted : bool) (atom : Template)
    (ps : list JsVal) (cfg : Hooks.ZeduxHookConfig) (inst : AtomInstance) :
  wellKeyed e0 ->
  getNode fuel e0 atom ps = Normal (inst, e1) ->
  n e1 !! observerId = None ->
  promiseStatus inst = loading ->
  Hooks.suspend cfg <> Some false ->
  let r := Hooks.useAtomInstance fuel e0 observerId mounted atom ps
             (Some cfg) in
  Hooks.outcome r = Throw (Hooks.ThrownValue (promise inst)) /\
  exists ed,
    edges (Hooks.ecosystem r) !! (observerId, id inst) = Some ed /\
    (edges e1 !! (observerId, id inst) = None ->
     flags ed = Hooks.edgeFlags cfg).
Proof.
  intros Hw Hg Hnone Hload Hsusp r.
  split.
  - subst r. unfold Hooks.useAtomInstance. rewrite Hg, Hnone.
    destruct (Hooks.newExternalNode _ _).
    destruct (Hooks.addEdge_closure _ _). simpl.
    unfold Hooks.suspendOrReturn, Hooks.suspends. rewrite Hload.
    by destruct (Hooks.suspend cfg) as [[]|].
  - destruct (useAtomInstance_edge fuel e0 observerId mounted atom ps cfg
                inst e1 Hw Hg) as (ed & He & _ & Hf).
    + intros a. by rewrite Hnone.
    + intros x. by rewrite Hnone.
    + exists ed. by split.
Qed.

Lemma wellKeyed_empty : wellKeyed empty.
Proof. intros i nd H. simpl in H. by rewrite lookup_empty in H. Qed.

Lemma useAtomInstance_suspended_edge_witness :
  exists ed,
    edges (Hooks.ecosystem
             (Hooks.useAtomInstance 1 empty "component" false
                Scenarios.remote [] (Some Hooks.defaultConfig)))
      !! ("component", "remote-[]") = Some ed /\
    flags ed = 6%Z.
Proof.
  assert (exists inst e1,
            getNode 1 empty Scenarios.remote [] = Normal (inst, e1) /\
            n e1 !! "component" = None /\
            promiseStatus inst = loading /\
            id inst = "remote-[]" /\
            edges e1 !! ("component", id inst) = None)
    as (inst & e1 & Hg & Hn & Hl & Hid & He).
  { eexists _, _. split; [vm_compute; reflexivity|].
    repeat split; vm_compute; reflexivity. }
  destruct (useAtomInstance_suspended_edge 1 empty e1 "component" false
              Scenarios.remote [] Hooks.defaultConfig inst wellKeyed_empty
              Hg Hn Hl) as (_ & ed & Hed & Hf).
  - discriminate.
  - exists ed. rewrite <- Hid. split; [exact Hed|]. by apply Hf.
Defined.

Lemma edges_updateInstance e i f : edges (updateInstance e i f) = edges e.
Proof. done. Qed.

Lemma destroyNode_edges_sub e i p ed :
  edges (destroyNode e i) !! p = Some ed -> edges e !! p = Some ed.
Proof.
  destruct (n e !! i) as [nd|] eqn:Hn.
  - rewrite destroyNode_edges by eauto.
    intros H. by apply map_lookup_filter_Some in H as [? _].
  - unfold destroyNode. by rewrite Hn.
Qed.

Lemma removeEdge_edges e f t p ed :
  edges (removeEdge e f t) !! p = Some ed ->
  edges e !! p = Some ed /\ p <> (f, t).
Proof.
  unfold removeEdge. destruct (edges e !! (f, t)) as [old|] eqn:Hold.
  - set (e1 := emit _ _).
    assert (edges e1 !! p = Some ed -> edges e !! p = Some ed /\ p <> (f, t))
      as H1.
    { subst e1. simpl. intros H. by apply lookup_delete_Some in H as [? ?]. }
    destruct (hasDependents e1 t); [exact H1|].
    destruct (n e1 !! t) as [[a|x]|]; try exact H1.
    destruct (ttl a) as [[|q]|]; try exact H1.
    intros H. by apply H1, (destroyNode_edges_sub e1 t).
  - intros H. split; [exact H|]. intros ->. congruence.
Qed.

(** The cleanup of the effect removes the edge at once and adds none:
    when the node of the component is still registered, after the
    cleanup there is no edge from the component to the instance, and
    every edge of the graph was there before. *)
Theorem useAtomInstance_cleanup_removes_edge (e : Ecosystem)
    (c : Hooks.Closure) :
  Hooks.nodeDestroyed e (Hooks.c_observerId c) (Hooks.c_node c) = false ->
  edges (Hooks.useAtomInstance_cleanup e c)
    !! (Hooks.c_observerId c, id (Hooks.c_instance c)) = None /\
  forall p ed,
    edges (Hooks.useAtomInstance_cleanup e c) !! p = Some ed ->
    edges e !! p = Some ed.
Proof.
  intros Hd.
  assert (forall p ed,
            edges (Hooks.useAtomInstance_cleanup e c) !! p = Some ed ->
            edges e !! p = Some ed /\
            p <> (Hooks.c_observerId c, id (Hooks.c_instance c))) as H.
  { intros p ed. unfold Hooks.useAtomInstance_cleanup, Hooks.node_k.
    rewrite Hd. cbv zeta.
    set (e1 := removeEdge e _ _).
    set (e2 := if Hooks.nodeObserves e1 _ _ _ then _ else e1).
    assert (edges e2 = edges e1) as He2.
    { subst e2. by destruct (Hooks.nodeObserves e1 _ _ _). }
    destruct (dependencyIds e2 (Hooks.c_observerId c)).
    - intros Hp. apply destroyNode_edges_sub in Hp. rewrite He2 in Hp.
      by apply removeEdge_edges in Hp.
    - rewrite He2. apply removeEdge_edges. }
  split.
  - destruct (edges (Hooks.useAtomInstance_cleanup e c) !! _) as [ed|] eqn:He;
      [|done].
    by destruct (H _ _ He) as [_ ?].
  - intros p ed Hp. by destruct (H p ed Hp).
Qed.

Lemma useAtomInstance_cleanup_removes_edge_witness :
  exists c,
    Hooks.closure
      (Hooks.useAtomInstance 1 empty "component" false Scenarios.count []
         None) = Some c /\
    edges (Hooks.useAtomInstance_cleanup
             (Scenarios.mounted empty Scenarios.count) c)
      !! ("component", "count-[]") = None.
Proof.
  assert (exists c,
            Hooks.closure
              (Hooks.useAtomInstance 1 empty "component" false
                 Scenarios.count [] None) = Some c /\
            Hooks.c_observerId c = "component" /\
            id (Hooks.c_instance c) = "count-[]" /\
            Hooks.nodeDestroyed (Scenarios.mounted empty Scenarios.count)
              (Hooks.c_observerId c) (Hooks.c_node c) = false)
    as (c & Hc & Ho & Hi & Hd).
  { eexists. split; [vm_compute; reflexivity|].
    repeat split; vm_compute; reflexivity. }
  exists c. split; [exact Hc|]. rewrite <- Ho, <- Hi.
  apply (useAtomInstance_cleanup_removes_edge _ c Hd).
Defined.

End RenderEdge.

(** ** The list the [Log] component renders *)

Section Rendered.

Import LogView.

(** The elements rendered are those of the filtered log, in its order,
    each under the id of its event as key: the keys are a subsequence
    of the ids of the log, so when the ids of the log are pairwise
    distinct no two elements share a key. *)
Theorem render_keys (f : Filters) (log : list LogEvent) :
  map LogRender.event (LogRender.render f log) = filteredLog f log /\
  map LogRender.key (LogRender.render f log) `sublist_of` map id log /\
  (NoDup (map id log) -> NoDup (map LogRender.key (LogRender.render f log))).
Proof.
  assert (map LogRender.key (LogRender.render f log) =
          map id (filteredLog f log)) as Hk.
  { unfold LogRender.render. rewrite map_map. done. }
  assert (map id (filteredLog f log) `sublist_of` map id log) as Hs.
  { apply (fmap_sublist id). unfold filteredLog.
    destruct (noFiltersSelected f); [done|apply filter_sublist]. }
  split.
  - unfold LogRender.render. rewrite map_map. simpl. apply map_id.
  - rewrite Hk. split; [exact Hs|]. intros Hnd.
    by apply (sublist_NoDup _ _ Hnd).
Qed.

End Rendered.
